(** * A shallow embedding of the fragmenter and the node coordinator

    Source: [p2p-file-sharing/fragment.go] ([FragmentManager.FragmentFile],
    [FragmentManager.AssembleFile]) and [p2p-file-sharing/main.go]
    ([P2PNode.handleFragmentRequest], [P2PNode.UploadFile]).

    Conventions.
    - A Go [int] is a 64-bit two's-complement integer: a [Z] in
      [[min_int, max_int]], every arithmetic result passed through [wrap].
    - A [[]byte] is a [list byte]; a Go [string] is a [string].
    - A Go [map[string]T] is a [gmap string T].
    - A call either returns a value, returns a Go [error], or panics:
      the three constructors of [outcome]. *)

From Stdlib Require Import ZArith List Lia Bool Ascii String Strings.Byte Sorting.Sorted
  Sorting.Permutation.
From stdpp Require Import base option list sorting gmap strings.
Import ListNotations.

Local Open Scope Z_scope.

(* ===================================================================== *)
(** ** Go's [int] *)
(* ===================================================================== *)

Module GoInt.

Definition width : Z := 64.
Definition modulus : Z := 2 ^ width.
Definition max_int : Z := 2 ^ (width - 1) - 1.
Definition min_int : Z := - 2 ^ (width - 1).

(** Reduction of a mathematical integer to its two's-complement
    representative, as Go does silently on overflow. *)
Definition wrap (x : Z) : Z :=
  (x + 2 ^ (width - 1)) mod modulus - 2 ^ (width - 1).

Definition in_range (x : Z) : Prop := min_int <= x <= max_int.

Definition add (x y : Z) : Z := wrap (x + y).
Definition sub (x y : Z) : Z := wrap (x - y).
Definition mul (x y : Z) : Z := wrap (x * y).

(** Go's [/] on integers truncates toward zero and panics on a zero
    divisor. *)
Definition div (x y : Z) : option Z :=
  if y =? 0 then None else Some (wrap (Z.quot x y)).

End GoInt.

(* ===================================================================== *)
(** ** SHA-256 ([crypto/sha256.Sum256]) and [fmt.Sprintf("%x", _)] *)
(* ===================================================================== *)

Module Sha256.

Definition w32 (x : Z) : Z := x mod 2 ^ 32.

Definition rotr (n x : Z) : Z :=
  w32 (Z.lor (Z.shiftr x n) (Z.shiftl x (32 - n))).

Definition ch (x y z : Z) : Z :=
  Z.lxor (Z.land x y) (Z.land (Z.lxor x (2 ^ 32 - 1)) z).
Definition maj (x y z : Z) : Z :=
  Z.lxor (Z.lxor (Z.land x y) (Z.land x z)) (Z.land y z).
Definition bsig0 (x : Z) : Z :=
  Z.lxor (Z.lxor (rotr 2 x) (rotr 13 x)) (rotr 22 x).
Definition bsig1 (x : Z) : Z :=
  Z.lxor (Z.lxor (rotr 6 x) (rotr 11 x)) (rotr 25 x).
Definition ssig0 (x : Z) : Z :=
  Z.lxor (Z.lxor (rotr 7 x) (rotr 18 x)) (Z.shiftr x 3).
Definition ssig1 (x : Z) : Z :=
  Z.lxor (Z.lxor (rotr 17 x) (rotr 19 x)) (Z.shiftr x 10).

(** The constants of FIPS 180-4 are defined from the primes: the round
    constants are the first 32 bits of the fractional parts of the cube
    roots of the first 64 primes, the initial chaining values those of the
    square roots of the first 8 primes. *)
Definition is_prime (p : Z) : bool :=
  (1 <? p) &&
  forallb (fun d => negb (p mod d =? 0))
          (map Z.of_nat (seq 2 (Z.to_nat p - 2))).

Definition first_primes (n : nat) : list Z :=
  firstn n (List.filter is_prime (map Z.of_nat (seq 2 310))).

(** The integer cube root, found bit by bit from bit [b - 1] down. *)
Fixpoint cbrt_bits (b : nat) (n r : Z) : Z :=
  match b with
  | O => r
  | S b' =>
      let c := r + 2 ^ Z.of_nat b' in
      cbrt_bits b' n (if c * c * c <=? n then c else r)
  end.

Definition icbrt (n : Z) : Z := cbrt_bits 40 n 0.

Definition K : list Z :=
  Eval vm_compute in
    map (fun p => w32 (icbrt (p * 2 ^ 96))) (first_primes 64).

Definition H0 : list Z :=
  Eval vm_compute in
    map (fun p => w32 (Z.sqrt (p * 2 ^ 64))) (first_primes 8).

(** The eight working variables / chaining values. *)
Record state := State {
  sa : Z; sb : Z; sc : Z; sd : Z; se : Z; sf : Z; sg : Z; sh : Z }.

Definition init : state :=
  let h i := nth i H0 0 in
  State (h 0%nat) (h 1%nat) (h 2%nat) (h 3%nat)
        (h 4%nat) (h 5%nat) (h 6%nat) (h 7%nat).

Definition byte_Z (b : Byte.byte) : Z := Z.of_N (Byte.to_N b).

Definition Z_byte (z : Z) : Byte.byte :=
  match Byte.of_N (Z.to_N (z mod 256)) with
  | Some b => b
  | None => Byte.x00
  end.

(** Big-endian encoding of the low [n] bytes of [z]. *)
Fixpoint be_bytes (n : nat) (z : Z) : list byte :=
  match n with
  | O => []
  | S n' => Z_byte (Z.shiftr z (8 * Z.of_nat n')) :: be_bytes n' z
  end.

(** Message padding: a 1 bit, zeros up to 56 mod 64, then the length in
    bits as 8 big-endian bytes. *)
Definition pad (msg : list byte) : list byte :=
  let len := Z.of_nat (length msg) in
  let zeros := Z.to_nat ((55 - len) mod 64) in
  msg ++ [Byte.x80] ++ repeat Byte.x00 zeros ++ be_bytes 8 (8 * len).

Fixpoint be_words (n : nat) (bs : list byte) : list Z :=
  match n, bs with
  | S n', b0 :: b1 :: b2 :: b3 :: rest =>
      (byte_Z b0 * 2 ^ 24 + byte_Z b1 * 2 ^ 16 + byte_Z b2 * 2 ^ 8 + byte_Z b3)
        :: be_words n' rest
  | _, _ => []
  end.

(** Message schedule: [n] more words appended to [w]. *)
Fixpoint schedule (n : nat) (w : list Z) : list Z :=
  match n with
  | O => w
  | S n' =>
      let t := length w in
      let x i := nth (t - i) w 0 in
      schedule n' (w ++ [w32 (ssig1 (x 2%nat) + x 7%nat + ssig0 (x 15%nat) + x 16%nat)])
  end.

Definition round (s : state) (kw : Z * Z) : state :=
  let t1 := w32 (sh s + bsig1 (se s) + ch (se s) (sf s) (sg s) + fst kw + snd kw) in
  let t2 := w32 (bsig0 (sa s) + maj (sa s) (sb s) (sc s)) in
  State (w32 (t1 + t2)) (sa s) (sb s) (sc s) (w32 (sd s + t1)) (se s) (sf s) (sg s).

Definition compress (h : state) (block : list byte) : state :=
  let w := schedule 48 (be_words 16 block) in
  let s := fold_left round (combine K w) h in
  State (w32 (sa h + sa s)) (w32 (sb h + sb s)) (w32 (sc h + sc s))
        (w32 (sd h + sd s)) (w32 (se h + se s)) (w32 (sf h + sf s))
        (w32 (sg h + sg s)) (w32 (sh h + sh s)).

(** [n] 64-byte blocks of [bs], folded from the left. *)
Fixpoint blocks (n : nat) (h : state) (bs : list byte) : state :=
  match n with
  | O => h
  | S n' => blocks n' (compress h (firstn 64 bs)) (skipn 64 bs)
  end.

Definition digest_bytes (s : state) : list byte :=
  be_bytes 4 (sa s) ++ be_bytes 4 (sb s) ++ be_bytes 4 (sc s) ++
  be_bytes 4 (sd s) ++ be_bytes 4 (se s) ++ be_bytes 4 (sf s) ++
  be_bytes 4 (sg s) ++ be_bytes 4 (sh s).

(** [sha256.Sum256]: the 32-byte digest. *)
Definition Sum256 (msg : list byte) : list byte :=
  let p := pad msg in
  digest_bytes (blocks (length p / 64)%nat init p).

End Sha256.

(** [fmt.Sprintf("%x", b)] on a byte array: two lowercase hexadecimal
    digits per byte, most significant nibble first. *)
Module Hex.

Definition digit (n : Z) : ascii :=
  if n <? 10 then ascii_of_N (Z.to_N (48 + n))
  else ascii_of_N (Z.to_N (87 + n)).

Fixpoint encode (bs : list byte) : string :=
  match bs with
  | [] => EmptyString
  | b :: rest =>
      let z := Sha256.byte_Z b in
      String (digit (z / 16)) (String (digit (z mod 16)) (encode rest))
  end.

Definition is_lower_hex_char (c : ascii) : bool :=
  let n := Z.of_N (N_of_ascii c) in
  ((48 <=? n) && (n <=? 57)) || ((97 <=? n) && (n <=? 102)).

Fixpoint is_lower_hex (s : string) : bool :=
  match s with
  | EmptyString => true
  | String c rest => is_lower_hex_char c && is_lower_hex rest
  end.

End Hex.

Definition bytes_of_string (s : string) : list byte :=
  map byte_of_ascii (list_ascii_of_string s).


(* ===================================================================== *)
(** ** Results of a call *)
(* ===================================================================== *)

(** The run-time panics the modelled code can raise. *)
Inductive panic : Type :=
  | PanicDivideByZero      (* integer divide by zero *)
  | PanicMakeSliceCap      (* makeslice: cap out of range *)
  | PanicSliceBounds       (* slice bounds out of range *)
  | PanicIndexOutOfRange.  (* index out of range *)

(** One constructor per [fmt.Errorf] site (and per forwarded error). *)
Inductive error : Type :=
  | ErrLeyendoArchivo                      (* "error leyendo archivo: %v" *)
  | ErrLeyendoDatos                        (* "error leyendo datos: %v" *)
  | ErrNoHayFragmentos                     (* "no hay fragmentos para ensamblar" *)
  | ErrFragmentosIncompletos (got want : Z) (* "fragmentos incompletos: %d/%d" *)
  | ErrCreandoArchivo                      (* "error creando archivo: %v" *)
  | ErrEscribiendoFragmento                (* "error escribiendo fragmento: %v" *)
  | ErrCodificandoMetadatos                (* "error codificando metadatos del archivo: %v" *)
  | ErrGenerandoHash                       (* "error generando hash para archivo %s: %v" *)
  | ErrAlmacenandoMetadatos (cause : string). (* "error almacenando metadatos del archivo: %v" *)

Inductive outcome (A : Type) : Type :=
  | Ok (a : A)
  | Err (e : error)
  | Panic (p : panic).
Arguments Ok {A} a.
Arguments Err {A} e.
Arguments Panic {A} p.

(** [len(s)] as a Go [int]. *)
Definition len {A : Type} (l : list A) : Z := Z.of_nat (length l).

(** The slice expression [s[lo:hi]]: panics unless [0 <= lo <= hi <= cap(s)].
    Every use below has [hi <= len(s)], so [cap] is taken to be [len]. *)
Definition slice {A : Type} (s : list A) (lo hi : Z) : option (list A) :=
  if (0 <=? lo) && (lo <=? hi) && (hi <=? len s)
  then Some (firstn (Z.to_nat (hi - lo)) (skipn (Z.to_nat lo) s))
  else None.

(* ===================================================================== *)
(** ** The file system seen through [os.Open], [io.ReadAll], [os.Create]
       and [File.Write] *)
(* ===================================================================== *)

Inductive FsEntry : Type :=
  | RegularFile (content : list byte)
  | Directory.

(** The state of the file system: the entries by path, the number of
    bytes the device can still take, and the paths at which the operating
    system lets [os.Create] go through. Whether a create is accepted
    depends on things the entries do not show (the parent directory, the
    permissions, the mount), so it is part of the state and not computed
    from the entries. *)
Record FS : Type := MkFS {
  entries : gmap string FsEntry;
  free_bytes : nat;
  creatable : string -> bool }.

(** [os.Open]: fails on a missing path. Every entry of the state can be
    opened: a file the process may not read is not part of the model. *)
Definition os_Open (fs : FS) (path : string) : option FsEntry :=
  entries fs !! path.

(** [io.ReadAll]: fails on a directory. *)
Definition io_ReadAll (f : FsEntry) : option (list byte) :=
  match f with
  | RegularFile content => Some content
  | Directory => None
  end.

(** [os.Create]: fails where the operating system refuses the create and
    on a directory; otherwise it creates the file, or truncates the one
    that is there, which gives its bytes back to the device. *)
Definition os_Create (fs : FS) (path : string) : option FS :=
  if creatable fs path then
    match entries fs !! path with
    | Some Directory => None
    | Some (RegularFile old) =>
        Some (MkFS (<[path := RegularFile []]> (entries fs))
                   (free_bytes fs + length old) (creatable fs))
    | None =>
        Some (MkFS (<[path := RegularFile []]> (entries fs))
                   (free_bytes fs) (creatable fs))
    end
  else None.

(** [File.Write]: appends [data]; when the device fills up, the part that
    fits is written and an error is returned. *)
Definition file_Write (fs : FS) (path : string) (data : list byte) : FS * bool :=
  match entries fs !! path with
  | Some (RegularFile old) =>
      let n := Nat.min (length data) (free_bytes fs) in
      (MkFS (<[path := RegularFile (old ++ firstn n data)]> (entries fs))
            (free_bytes fs - n)%nat (creatable fs),
       (length data <=? free_bytes fs)%nat)
  | _ => (fs, false)
  end.

(* ===================================================================== *)
(** ** [sort.Slice] *)
(* ===================================================================== *)

(** [less] is a strict weak ordering, the contract [sort.Slice] asks of
    its comparison. *)
Definition strict_weak {A : Type} (less : A -> A -> bool) : Prop :=
  (forall a b, less a b = true -> less b a = false) /\
  (forall a b c, less a b = true -> less b c = true -> less a c = true) /\
  (forall a b c, less a b = false -> less b c = false -> less a c = false).

(** What [sort.Slice] guarantees: the slice is rearranged (nothing added,
    nothing lost) so that no element is [less] than the one before it.
    Which of several equal elements comes first is not specified. *)
Class SliceSort : Type := {
  sort_Slice : forall A : Type, (A -> A -> bool) -> list A -> list A;
  sort_Slice_perm : forall A (less : A -> A -> bool) (l : list A),
    Permutation l (sort_Slice A less l);
  sort_Slice_sorted : forall A (less : A -> A -> bool) (l : list A),
    strict_weak less ->
    Sorted (fun a b => less b a = false) (sort_Slice A less l) }.

(** The insertion sort that [sort.Slice] runs on a slice of at most 12
    elements: each element in turn is swapped leftwards while it is
    [less] than its left neighbour. [rp] is the already sorted prefix,
    last element first. *)
Fixpoint insert_back {A : Type} (less : A -> A -> bool) (x : A) (rp : list A)
  : list A :=
  match rp with
  | [] => [x]
  | y :: r => if less x y then y :: insert_back less x r else x :: rp
  end.

Definition insertion_sort {A : Type} (less : A -> A -> bool) (l : list A)
  : list A :=
  rev (fold_left (fun rp x => insert_back less x rp) l []).

(* ===================================================================== *)
(** ** fragment.go *)
(* ===================================================================== *)

Record Fragment : Type := MkFragment {
  Hash : string;
  Data : list byte;
  Index : Z;
  TotalFragments : Z;
  Filename : string }.

Record FragmentManager : Type := MkFragmentManager {
  FragmentSize : Z }.

Definition NewFragmentManager (fragmentSize : Z) : FragmentManager :=
  MkFragmentManager fragmentSize.

(** The body of [for i := 0; i < totalFragments; i++ { ... }], run for the
    [n] iterations that remain from index [i] on ([i < totalFragments]
    holds for exactly [totalFragments - i] more values of [i]). *)
Fixpoint fragment_loop (n : nat) (i : Z) (size totalFragments : Z)
    (data : list byte) (filename : string) (fragments : list Fragment)
  : outcome (list Fragment) :=
  match n with
  | O => Ok fragments
  | S n' =>
      let start := GoInt.mul i size in
      let end_ := GoInt.add start size in
      let end_ := if end_ >? len data then len data else end_ in
      match slice data start end_ with
      | None => Panic PanicSliceBounds
      | Some fragmentData =>
          let hash := Hex.encode (Sha256.Sum256 fragmentData) in
          let fragment :=
            {| Hash := hash;
               Data := fragmentData;
               Index := i;
               TotalFragments := totalFragments;
               Filename := filename |} in
          fragment_loop n' (GoInt.add i 1) size totalFragments data filename
            (fragments ++ [fragment])
      end
  end.

Definition FragmentFile (fm : FragmentManager) (filepath : string) (fs : FS)
  : outcome (list Fragment) :=
  match os_Open fs filepath with
  | None => Err ErrLeyendoArchivo
  | Some file =>
      match io_ReadAll file with
      | None => Err ErrLeyendoDatos
      | Some data =>
          let filename := filepath in
          match GoInt.div
                  (GoInt.sub (GoInt.add (len data) (FragmentSize fm)) 1)
                  (FragmentSize fm) with
          | None => Panic PanicDivideByZero
          | Some totalFragments =>
              (* make([]Fragment, 0, totalFragments): a negative capacity
                 panics (exhausting memory is outside the model) *)
              if totalFragments <? 0 then Panic PanicMakeSliceCap
              else fragment_loop (Z.to_nat totalFragments) 0
                     (FragmentSize fm) totalFragments data filename []
          end
      end
  end.

(** [for _, fragment := range fragments { outputFile.Write(fragment.Data) }] *)
Fixpoint write_fragments (fs : FS) (path : string) (fragments : list Fragment)
  : FS * outcome unit :=
  match fragments with
  | [] => (fs, Ok tt)
  | fragment :: rest =>
      match file_Write fs path (Data fragment) with
      | (fs', true) => write_fragments fs' path rest
      | (fs', false) => (fs', Err ErrEscribiendoFragmento)
      end
  end.

(** What a call of [AssembleFile] leaves behind: the caller's slice (the
    parameter shares its backing array, and [sort.Slice] permutes it in
    place), the file system, and the returned error ([Ok tt] for [nil]). *)
Record AssembleResult : Type := MkAssembleResult {
  caller_slice : list Fragment;
  fs_after : FS;
  returned : outcome unit }.

Definition less_index (a b : Fragment) : bool := Index a <? Index b.

Definition AssembleFile `{SliceSort} (fm : FragmentManager)
    (fragments : list Fragment) (outputPath : string) (fs : FS)
  : AssembleResult :=
  if len fragments =? 0 then
    MkAssembleResult fragments fs (Err ErrNoHayFragmentos)
  else
    let fragments := sort_Slice Fragment less_index fragments in
    match fragments with
    | [] => MkAssembleResult fragments fs (Panic PanicIndexOutOfRange)
    | first :: _ =>
        if negb (len fragments =? TotalFragments first) then
          MkAssembleResult fragments fs
            (Err (ErrFragmentosIncompletos (len fragments) (TotalFragments first)))
        else
          match os_Create fs outputPath with
          | None => MkAssembleResult fragments fs (Err ErrCreandoArchivo)
          | Some fs1 =>
              let (fs2, r) := write_fragments fs1 outputPath fragments in
              MkAssembleResult fragments fs2 r
          end
    end.

(** The bytes of the regular file at [path], if there is one. *)
Definition file_content (fs : FS) (path : string) : option (list byte) :=
  match entries fs !! path with
  | Some (RegularFile content) => Some content
  | _ => None
  end.

(* ===================================================================== *)
(** ** main.go *)
(* ===================================================================== *)

Record FileInfo : Type := MkFileInfo {
  fi_Filename : string;
  fi_FragmentHashes : list string;
  fi_TotalFragments : Z }.

Record FragmentRequest : Type := MkFragmentRequest {
  req_Hash : string }.

Record FragmentResponse : Type := MkFragmentResponse {
  resp_Hash : string;
  resp_Data : list byte;
  resp_Found : bool }.

(** The services [UploadFile] calls into: [json.Marshal] on a [FileInfo],
    [mh.Sum(_, mh.SHA2_256, -1)], [cid.NewCidV1(cid.Raw, _).String()] and
    the DHT's [PutValue], which acts on the state of the distributed index
    and may fail. *)
Class Services : Type := {
  dht_state : Type;
  json_Marshal : FileInfo -> option (list byte);
  mh_Sum : list byte -> option (list byte);
  cid_String : list byte -> string;
  dht_PutValue : dht_state -> string -> list byte -> dht_state * option string }.

Record P2PNode `{Services} : Type := MkP2PNode {
  DHT : dht_state;
  FragmentMgr : FragmentManager;
  StoredFragments : gmap string Fragment;
  FileMetadata : gmap string FileInfo }.

(** An inbound stream: what [json.Decoder.Decode] finds on it ([None] for
    a decoding error) and whether a write to it goes through. *)
Record Stream : Type := MkStream {
  incoming : option FragmentRequest;
  writable : bool }.

(** What the handler does to the stream and the log, in order. *)
Inductive StreamEvent : Type :=
  | LogDecodeError                      (* "Error decodificando solicitud" *)
  | Encode (response : FragmentResponse) (* the response written to the stream *)
  | LogEncodeError (response : FragmentResponse) (* "Error enviando respuesta" *)
  | Close.

(** Lines 123 to 131: the response built for a decoded request. *)
Definition build_response `{Services} (n : P2PNode) (req : FragmentRequest)
  : FragmentResponse :=
  let response := MkFragmentResponse (req_Hash req) [] false in
  match StoredFragments n !! req_Hash req with
  | Some fragment =>
      MkFragmentResponse (resp_Hash response) (Data fragment) true
  | None => response
  end.

Definition handleFragmentRequest `{Services} (n : P2PNode) (s : Stream)
  : list StreamEvent :=
  match incoming s with
  | None => [LogDecodeError; Close]
  | Some req =>
      let response := build_response n req in
      if writable s then [Encode response; Close]
      else [LogEncodeError response; Close]
  end.

(** [fragmentHashes] collects the hashes in order; the catalog entry is
    [FileInfo{Filename: filename, FragmentHashes: fragmentHashes,
    TotalFragments: len(fragments)}]. *)
Definition file_info_of (filename : string) (fragments : list Fragment)
  : FileInfo :=
  {| fi_Filename := filename;
     fi_FragmentHashes := map Hash fragments;
     fi_TotalFragments := len fragments |}.

(** [for i, fragment := range fragments { fragmentHashes[i] = fragment.Hash;
    n.StoredFragments[fragment.Hash] = fragment }] *)
Definition store_fragments (fragments : list Fragment)
    (stored : gmap string Fragment) : gmap string Fragment :=
  fold_left (fun m fragment => <[Hash fragment := fragment]> m) fragments stored.

Definition UploadFile `{Services} (n : P2PNode) (filepath : string) (fs : FS)
  : P2PNode * outcome unit :=
  match FragmentFile (FragmentMgr n) filepath fs with
  | Panic p => (n, Panic p)
  | Err e => (n, Err e)
  | Ok fragments =>
      let filename := filepath in
      let stored := store_fragments fragments (StoredFragments n) in
      let fileInfo := file_info_of filename fragments in
      let metadata := <[filename := fileInfo]> (FileMetadata n) in
      let n1 := MkP2PNode _ (DHT n) (FragmentMgr n) stored metadata in
      match json_Marshal fileInfo with
      | None => (n1, Err ErrCodificandoMetadatos)
      | Some fileInfoBytes =>
          match mh_Sum (bytes_of_string filename) with
          | None => (n1, Err ErrGenerandoHash)
          | Some hash =>
              let fileCid := cid_String hash in
              match dht_PutValue (DHT n) fileCid fileInfoBytes with
              | (dht', Some cause) =>
                  (MkP2PNode _ dht' (FragmentMgr n) stored metadata,
                   Err (ErrAlmacenandoMetadatos cause))
              | (dht', None) =>
                  (MkP2PNode _ dht' (FragmentMgr n) stored metadata, Ok tt)
              end
          end
      end
  end.

(* ===================================================================== *)
(** ** Concrete instances used to run the model *)
(* ===================================================================== *)

Fixpoint has_char (c : ascii) (s : string) : bool :=
  match s with
  | EmptyString => false
  | String c' rest => Ascii.eqb c' c || has_char c rest
  end.

(** A name the working directory can take as a new file: not empty, not
    one of the two directory links, at most 255 bytes long, and with no
    separator and no NUL byte in it. *)
Definition plain_name (p : string) : bool :=
  negb (String.eqb p "") && negb (String.eqb p ".") &&
  negb (String.eqb p "..") &&
  negb (has_char "/" p) && negb (has_char "000" p) &&
  (String.length p <=? 255)%nat.

(** A writable working directory that holds one regular file and nothing
    else: a create goes through on a plain name and on no path that leads
    into a subdirectory, there being none. *)
Definition fs_with (path : string) (content : list byte) (room : nat) : FS :=
  MkFS {[ path := RegularFile content ]} room plain_name.

(** A key the record validator of the DHT takes: one in the public-key
    or the IPNS name space. Any other key is refused as an invalid record
    key type. *)
Definition namespaced (key : string) : bool :=
  String.prefix "/pk/" key || String.prefix "/ipns/" key.

(** A toy index service: records live in a map; [PutValue] fails when the
    index is marked unreachable, and refuses a key outside the name
    spaces of the validator. *)
Record ToyDHT : Type := MkToyDHT {
  reachable : bool;
  records : gmap string (list byte) }.

Definition toy_marshal (fi : FileInfo) : option (list byte) :=
  Some (bytes_of_string (fi_Filename fi)
        ++ flat_map bytes_of_string (fi_FragmentHashes fi)).

#[local] Instance toy_services : Services := {|
  dht_state := ToyDHT;
  json_Marshal := toy_marshal;
  mh_Sum := fun b => Some (Sha256.Sum256 b);
  cid_String := Hex.encode;
  dht_PutValue := fun d k v =>
    if reachable d then
      if namespaced k then (MkToyDHT true (<[k := v]> (records d)), None)
      else (d, Some "invalid record keytype"%string)
    else (d, Some "unreachable"%string) |}.

(** A file of two fragments, a fragment tampered with, and a node that
    stores one fragment. *)
Definition fragment_of (data : list byte) (index total : Z) (filename : string)
  : Fragment :=
  {| Hash := Hex.encode (Sha256.Sum256 data);
     Data := data;
     Index := index;
     TotalFragments := total;
     Filename := filename |}.

Definition demo_fs : FS := fs_with "in" (bytes_of_string "abcdefgh") 64.
Definition demo_f0 : Fragment := fragment_of (bytes_of_string "abcd") 0 2 "in".
Definition demo_f1 : Fragment := fragment_of (bytes_of_string "efgh") 1 2 "in".

(** [demo_f0] after its data was overwritten: the hash is the old one. *)
Definition demo_tampered : Fragment :=
  {| Hash := Hash demo_f0;
     Data := bytes_of_string "XXXX";
     Index := 0;
     TotalFragments := 2;
     Filename := "in" |}.

(** A node that stores [demo_f0] and nothing else. *)
Definition demo_node : P2PNode :=
  MkP2PNode toy_services (MkToyDHT false ∅) (NewFragmentManager 4)
    {[ Hash demo_f0 := demo_f0 ]} ∅.

(* ===================================================================== *)
(** ** Vocabulary of the statements *)
(* ===================================================================== *)

(** [ceil(N / S)], written without the rounding trick of the source. *)
Definition ceil_div (N S : Z) : Z :=
  N / S + (if N mod S =? 0 then 0 else 1).

(** The window of [data] that fragment [k] carries. *)
Definition window (size : Z) (data : list byte) (k : Z) : list byte :=
  firstn (Z.to_nat size) (skipn (Z.to_nat (k * size)) data).

(** What holds of the fragments appended so far when the loop is about to
    run iteration [i]. *)
Definition loop_inv (size total : Z) (data : list byte) (filename : string)
    (i : Z) (fragments : list Fragment) : Prop :=
  len fragments = i /\
  concat (map Data fragments) = firstn (Z.to_nat (i * size)) data /\
  forall (k : nat) (f : Fragment), fragments !! k = Some f ->
    Index f = Z.of_nat k /\ TotalFragments f = total /\ Filename f = filename /\
    Hash f = Hex.encode (Sha256.Sum256 (Data f)) /\
    Data f = window size data (Z.of_nat k).

Definition index_le (a b : Fragment) : Prop := Index a <= Index b.

(** A slice whose fragments carry [base], [base + 1], ... as indices. *)
Definition indexed_from (base : Z) (l : list Fragment) : Prop :=
  forall (k : nat) (f : Fragment), l !! k = Some f -> Index f = base + Z.of_nat k.

(** The round trip of the specification: fragmenting the file at
    [filepath] succeeds, assembling what it returned succeeds, and the
    file at [outputPath] then holds the bytes [data]. *)
Definition roundtrip `{SliceSort} (fm : FragmentManager)
    (filepath outputPath : string) (fs : FS) (data : list byte) : Prop :=
  exists fragments,
    FragmentFile fm filepath fs = Ok fragments /\
    returned (AssembleFile fm fragments outputPath fs) = Ok tt /\
    file_content (fs_after (AssembleFile fm fragments outputPath fs)) outputPath
      = Some data.

(** The hash field is the lowercase hexadecimal SHA-256 digest of the
    data field: 64 characters among [0-9a-f]. *)
Definition hash_matches (f : Fragment) : Prop :=
  Hash f = Hex.encode (Sha256.Sum256 (Data f)) /\
  Hex.is_lower_hex (Hash f) = true /\
  String.length (Hash f) = 64%nat.

(** After the storing loop every hash of the file is a key of the store,
    bound to a fragment of the file with that hash. *)
Definition holds_file (stored : gmap string Fragment)
    (fragments : list Fragment) : Prop :=
  forall f, In f fragments ->
    exists g, stored !! Hash f = Some g /\ In g fragments /\ Hash g = Hash f.

(** Local storage and the catalog update are done: the store holds the
    file's fragments and the catalog maps the file name to its entry. *)
Definition stored_locally `{Services} (n : P2PNode) (filename : string)
    (fragments : list Fragment) : Prop :=
  holds_file (StoredFragments n) fragments /\
  FileMetadata n !! filename = Some (file_info_of filename fragments).

(** The node value that [NewP2PNode] builds (main.go:96-102) once the
    host and the DHT exist: a fragment manager for 256 KiB fragments and
    two empty maps. Creating the host, bootstrapping the DHT and dialling
    the bootstrap peers are network actions outside the model; [d] is the
    DHT they leave. *)
Definition initial_node `{Services} (d : dht_state) : P2PNode :=
  MkP2PNode _ d (NewFragmentManager (256 * 1024)) ∅ ∅.

(** Every key of the store is the hash field of its fragment, and that is
    the hexadecimal SHA-256 digest of the fragment's data. *)
Definition content_addressed (stored : gmap string Fragment) : Prop :=
  forall h f, stored !! h = Some f ->
    Hash f = h /\ Hex.encode (Sha256.Sum256 (Data f)) = h.

(** The last fragment of [fragments] whose hash field is [h]. *)
Definition last_with_hash (h : string) (fragments : list Fragment)
  : option Fragment :=
  List.find (fun f => String.eqb (Hash f) h) (rev fragments).

(* ===================================================================== *)
(** * Properties *)
(* ===================================================================== *)

(** ** The hash constants and test vectors (FIPS 180-4) *)

Example K_ends :
  length Sha256.K = 64%nat /\
  nth 0 Sha256.K 0 = 0x428a2f98 /\ nth 63 Sha256.K 0 = 0xc67178f2.
Proof. repeat split. Qed.

Example H0_ends :
  length Sha256.H0 = 8%nat /\
  nth 0 Sha256.H0 0 = 0x6a09e667 /\ nth 7 Sha256.H0 0 = 0x5be0cd19.
Proof. repeat split. Qed.

Example sha_abc :
  Hex.encode (Sha256.Sum256 (bytes_of_string "abc"))
  = "ba7816bf8f01cfea414140de5dae2223b00361a396177a9cb410ff61f20015ad"%string.
Proof. vm_compute. reflexivity. Qed.

Example sha_empty :
  Hex.encode (Sha256.Sum256 [])
  = "e3b0c44298fc1c149afbf4c8996fb92427ae41e4649b934ca495991b7852b855"%string.
Proof. vm_compute. reflexivity. Qed.

Example sha_two_blocks :
  Hex.encode (Sha256.Sum256 (bytes_of_string
    "abcdbcdecdefdefgefghfghighijhijkijkljklmklmnlmnomnopnopq"))
  = "248d6a61d20638b8e5c026930c3e6039a33ce45964ff2167f6ecedd419db06c1"%string.
Proof. vm_compute. reflexivity. Qed.

Lemma be_bytes_length n z : length (Sha256.be_bytes n z) = n.
Proof. induction n; simpl; congruence. Qed.

Lemma Sum256_length msg : length (Sha256.Sum256 msg) = 32%nat.
Proof.
  unfold Sha256.Sum256, Sha256.digest_bytes.
  repeat rewrite length_app. repeat rewrite be_bytes_length. reflexivity.
Qed.

(** ** Machine integers *)

Lemma wrap_small x : GoInt.in_range x -> GoInt.wrap x = x.
Proof.
  unfold GoInt.in_range, GoInt.wrap, GoInt.min_int, GoInt.max_int,
    GoInt.modulus, GoInt.width.
  intros Hx. rewrite Z.mod_small; lia.
Qed.

Lemma wrap_in_range x : GoInt.in_range (GoInt.wrap x).
Proof.
  unfold GoInt.in_range, GoInt.wrap, GoInt.min_int, GoInt.max_int,
    GoInt.modulus, GoInt.width.
  pose proof (Z.mod_pos_bound (x + 2 ^ (64 - 1)) (2 ^ 64) ltac:(lia)).
  lia.
Qed.

Lemma wrap_wrap_sub x y : GoInt.wrap (GoInt.wrap x - y) = GoInt.wrap (x - y).
Proof.
  unfold GoInt.wrap, GoInt.modulus, GoInt.width.
  f_equal.
  replace ((x + 2 ^ (64 - 1)) mod 2 ^ 64 - 2 ^ (64 - 1) - y + 2 ^ (64 - 1))
    with ((x + 2 ^ (64 - 1)) mod 2 ^ 64 + (- y)) by lia.
  rewrite Zplus_mod_idemp_l. f_equal. lia.
Qed.

(** ** The insertion sort meets the contract of [sort.Slice] *)

Section InsertionSort.
Context {A : Type} (less : A -> A -> bool).

Let later (a b : A) : Prop := less a b = false.

Lemma insert_back_perm x rp : Permutation (x :: rp) (insert_back less x rp).
Proof.
  induction rp as [|y r IH]; simpl; [reflexivity|].
  destruct (less x y); [|reflexivity].
  rewrite perm_swap. now apply perm_skip.
Qed.

Lemma fold_insert_perm l acc :
  Permutation (l ++ acc) (fold_left (fun rp x => insert_back less x rp) l acc).
Proof.
  revert acc. induction l as [|x l IH]; intros acc; simpl; [reflexivity|].
  rewrite <- IH. rewrite <- insert_back_perm.
  now rewrite Permutation_middle.
Qed.

Lemma insertion_sort_perm l : Permutation l (insertion_sort less l).
Proof.
  unfold insertion_sort. rewrite <- Permutation_rev, <- fold_insert_perm.
  now rewrite app_nil_r.
Qed.

Hypothesis asym : forall a b, less a b = true -> less b a = false.

Lemma insert_back_hd x y r :
  later y x -> HdRel later y r -> HdRel later y (insert_back less x r).
Proof.
  intros Hyx Hr. destruct r as [|z r]; simpl; [now constructor|].
  destruct (less x z); constructor; [now inversion Hr | exact Hyx].
Qed.

Lemma insert_back_sorted x rp :
  Sorted later rp -> Sorted later (insert_back less x rp).
Proof.
  induction 1 as [|y r Hs IH Hhd]; simpl; [repeat constructor|].
  destruct (less x y) eqn:Hxy.
  - constructor; [exact IH|]. apply insert_back_hd; [|exact Hhd].
    now apply asym.
  - constructor; [now constructor|]. now constructor.
Qed.

Lemma fold_insert_sorted l acc :
  Sorted later acc ->
  Sorted later (fold_left (fun rp x => insert_back less x rp) l acc).
Proof.
  revert acc. induction l as [|x l IH]; intros acc Hacc; simpl; [exact Hacc|].
  apply IH. now apply insert_back_sorted.
Qed.

Lemma Sorted_app_last (R : A -> A -> Prop) l x :
  Sorted R l -> (forall y, last l = Some y -> R y x) -> Sorted R (l ++ [x]).
Proof.
  induction 1 as [|a l Hs IH Hhd]; intros Hlast; simpl.
  - repeat constructor.
  - constructor.
    + apply IH. intros y Hy. apply Hlast. destruct l; [discriminate|exact Hy].
    + destruct l as [|b l]; simpl.
      * constructor. now apply Hlast.
      * constructor. now inversion Hhd.
Qed.

Lemma Sorted_rev_flip (R : A -> A -> Prop) l :
  Sorted R l -> Sorted (fun a b => R b a) (rev l).
Proof.
  induction 1 as [|a l Hs IH Hhd]; simpl; [constructor|].
  apply Sorted_app_last; [exact IH|].
  intros y Hy. destruct l as [|b l]; [discriminate|].
  simpl in Hy. rewrite last_snoc in Hy.
  injection Hy as <-. now inversion Hhd.
Qed.

Lemma insertion_sort_sorted l :
  Sorted (fun a b => less b a = false) (insertion_sort less l).
Proof.
  unfold insertion_sort. apply (Sorted_rev_flip later).
  apply fold_insert_sorted. constructor.
Qed.

End InsertionSort.

(** The instance used to run [AssembleFile] on concrete slices. *)
#[local] Instance go_sort : SliceSort := {|
  sort_Slice := fun A less l => insertion_sort less l;
  sort_Slice_perm := fun A less l => insertion_sort_perm less l;
  sort_Slice_sorted := fun A less l sw =>
    insertion_sort_sorted less (proj1 sw) l |}.

(** ** List and arithmetic facts used by the fragmenter *)

Lemma firstn_firstn_skipn {A : Type} (a b : nat) (l : list A) :
  firstn a l ++ firstn b (skipn a l) = firstn (a + b) l.
Proof.
  revert l. induction a as [|a IH]; intros l; simpl; [reflexivity|].
  destruct l as [|x l]; simpl.
  - now rewrite firstn_nil.
  - now rewrite IH.
Qed.


Lemma ceil_div_trick N S : 0 <= N -> 0 < S -> (N + S - 1) / S = ceil_div N S.
Proof.
  intros HN HS. unfold ceil_div.
  pose proof (Z.div_mod N S ltac:(lia)) as Hdm.
  pose proof (Z.mod_pos_bound N S HS) as Hm.
  destruct (N mod S =? 0) eqn:E.
  - apply Z.eqb_eq in E. symmetry. rewrite Z.add_0_r.
    apply Z.div_unique with (r := S - 1); lia.
  - apply Z.eqb_neq in E. symmetry.
    apply Z.div_unique with (r := N mod S - 1); lia.
Qed.

Lemma ceil_div_bounds N S :
  0 <= N -> 0 < S ->
  0 <= ceil_div N S /\ N <= ceil_div N S * S /\ ceil_div N S * S < N + S.
Proof.
  intros HN HS. unfold ceil_div.
  pose proof (Z.div_mod N S ltac:(lia)) as Hdm.
  pose proof (Z.mod_pos_bound N S HS) as Hm.
  pose proof (Z.div_pos N S HN HS) as Hq.
  destruct (N mod S =? 0) eqn:E.
  - apply Z.eqb_eq in E. nia.
  - nia.
Qed.

(** ** The fragmenting loop *)



Lemma slice_window size data i :
  0 < size -> 0 <= i -> i * size < len data ->
  slice data (i * size)
    (if i * size + size >? len data then len data else i * size + size)
  = Some (window size data i).
Proof.
  intros HS Hi Hlt. unfold slice, window, len in *.
  destruct (i * size + size >? Z.of_nat (length data)) eqn:E.
  - assert (i * size + size > Z.of_nat (length data)) by lia.
    replace ((0 <=? i * size) && (i * size <=? Z.of_nat (length data))
             && (Z.of_nat (length data) <=? Z.of_nat (length data)))
      with true by (symmetry; repeat (apply andb_true_intro; split); lia).
    f_equal.
    rewrite (firstn_all2 (n := Z.to_nat size)); [|rewrite length_skipn; lia].
    apply firstn_all2. rewrite length_skipn. lia.
  - assert (i * size + size <= Z.of_nat (length data)) by lia.
    replace ((0 <=? i * size) && (i * size <=? i * size + size)
             && (i * size + size <=? Z.of_nat (length data)))
      with true by (symmetry; repeat (apply andb_true_intro; split); lia).
    do 2 f_equal. lia.
Qed.

Lemma fragment_loop_inv size total data filename :
  0 < size -> len data + size - 1 <= GoInt.max_int ->
  forall (n : nat) (i : Z) (acc : list Fragment),
    0 <= i -> (i + Z.of_nat n) * size < len data + size ->
    loop_inv size total data filename i acc ->
    exists res,
      fragment_loop n i size total data filename acc = Ok res /\
      loop_inv size total data filename (i + Z.of_nat n) res.
Proof.
  intros HS Hmax. induction n as [|n IH]; intros i acc Hi Hbound Hinv.
  - exists acc. split; [reflexivity|]. now rewrite Z.add_0_r.
  - assert (Hlt : i * size < len data) by nia.
    assert (Hlen : 0 <= len data) by (unfold len; lia).
    assert (Hmi : GoInt.max_int = 9223372036854775807) by reflexivity.
    assert (Hmn : GoInt.min_int = -9223372036854775808) by reflexivity.
    assert (Hii : 0 <= i * size) by nia.
    assert (Hi1 : i < len data) by nia.
    simpl. unfold GoInt.mul, GoInt.add.
    rewrite (wrap_small (i * size)) by (unfold GoInt.in_range; lia).
    rewrite (wrap_small (i * size + size)) by (unfold GoInt.in_range; lia).
    rewrite (wrap_small (i + 1)) by (unfold GoInt.in_range; lia).
    rewrite slice_window by assumption.
    replace (i + Z.of_nat (S n)) with ((i + 1) + Z.of_nat n) in * by lia.
    apply IH; [lia|exact Hbound|].
    destruct Hinv as (Hl & Hcat & Hall).
    split; [|split].
    + unfold len in *. rewrite length_app. simpl. lia.
    + rewrite map_app, concat_app, Hcat. simpl. rewrite app_nil_r.
      unfold window.
      replace (Z.to_nat ((i + 1) * size))
        with (Z.to_nat (i * size) + Z.to_nat size)%nat by lia.
      apply firstn_firstn_skipn.
    + intros k f Hk.
      assert (Hlacc : length acc = Z.to_nat i) by (unfold len in Hl; lia).
      destruct (decide (k < length acc)%nat) as [Hin|Hout].
      * rewrite lookup_app_l in Hk by exact Hin. now apply Hall.
      * rewrite lookup_app_r in Hk by lia.
        destruct (k - length acc)%nat as [|m] eqn:Hm; [|destruct m; discriminate].
        injection Hk as <-. simpl.
        assert (Hki : i = Z.of_nat k) by lia. rewrite Hki.
        repeat split; reflexivity.
Qed.

(** ** [FragmentFile] when the rounding sum does not overflow *)

Lemma total_fragments_value N S :
  0 <= N -> 0 < S -> N + S - 1 <= GoInt.max_int ->
  GoInt.div (GoInt.sub (GoInt.add N S) 1) S = Some (ceil_div N S).
Proof.
  intros HN HS Hmax.
  assert (Hmi : GoInt.max_int = 9223372036854775807) by reflexivity.
  assert (Hmn : GoInt.min_int = -9223372036854775808) by reflexivity.
  unfold GoInt.div, GoInt.sub, GoInt.add.
  destruct (S =? 0) eqn:E; [lia|].
  rewrite wrap_wrap_sub.
  rewrite (wrap_small (N + S - 1)) by (unfold GoInt.in_range; lia).
  rewrite Z.quot_div_nonneg by lia.
  rewrite ceil_div_trick by lia.
  pose proof (ceil_div_bounds N S HN ltac:(lia)) as (Hc0 & Hc1 & Hc2).
  rewrite wrap_small; [reflexivity|].
  unfold GoInt.in_range. nia.
Qed.

Lemma FragmentFile_spec fm filepath fs data :
  entries fs !! filepath = Some (RegularFile data) ->
  0 < FragmentSize fm ->
  len data + FragmentSize fm - 1 <= GoInt.max_int ->
  exists fragments,
    FragmentFile fm filepath fs = Ok fragments /\
    loop_inv (FragmentSize fm) (ceil_div (len data) (FragmentSize fm))
      data filepath (ceil_div (len data) (FragmentSize fm)) fragments.
Proof.
  intros Hfile HS Hmax.
  assert (Hlen : 0 <= len data) by (unfold len; lia).
  pose proof (ceil_div_bounds (len data) (FragmentSize fm) Hlen HS)
    as (Hc0 & Hc1 & Hc2).
  unfold FragmentFile, os_Open. rewrite Hfile. simpl.
  rewrite total_fragments_value by assumption.
  destruct (ceil_div (len data) (FragmentSize fm) <? 0) eqn:E; [lia|].
  destruct (fragment_loop_inv (FragmentSize fm)
              (ceil_div (len data) (FragmentSize fm)) data filepath HS Hmax
              (Z.to_nat (ceil_div (len data) (FragmentSize fm))) 0 [])
    as (res & Hres & Hinv).
  - lia.
  - rewrite Z2Nat.id by lia. lia.
  - split; [reflexivity|]. split; [reflexivity|].
    intros k f Hk. discriminate.
  - exists res. split; [exact Hres|].
    rewrite Z2Nat.id in Hinv by lia. exact Hinv.
Qed.

(** Once the loop has covered the whole file, the windows concatenate to
    the file. *)
Lemma loop_inv_concat size total data filename fragments :
  0 < size -> len data <= total * size ->
  loop_inv size total data filename total fragments ->
  concat (map Data fragments) = data.
Proof.
  intros HS Hcover (_ & Hcat & _). rewrite Hcat.
  apply firstn_all2. unfold len in *. lia.
Qed.

Lemma window_length size data k :
  0 < size -> 0 <= k ->
  len (window size data k) = Z.min size (Z.max 0 (len data - k * size)).
Proof.
  intros HS Hk. unfold window, len.
  rewrite length_firstn, length_skipn. lia.
Qed.

Lemma FragmentFile_shape fm filepath fs data :
  let N := len data in
  let S := FragmentSize fm in
  entries fs !! filepath = Some (RegularFile data) ->
  0 < S -> N + S - 1 <= GoInt.max_int ->
  exists fragments,
    FragmentFile fm filepath fs = Ok fragments /\
    len fragments = ceil_div N S /\
    forall (k : nat) (f : Fragment), fragments !! k = Some f ->
      Index f = Z.of_nat k /\
      TotalFragments f = ceil_div N S /\
      (Z.of_nat k < ceil_div N S - 1 -> len (Data f) = S) /\
      (Z.of_nat k = ceil_div N S - 1 ->
       len (Data f) = if N mod S =? 0 then S else N mod S).
Proof.
  intros N S Hfile HS Hmax.
  destruct (FragmentFile_spec fm filepath fs data Hfile HS Hmax)
    as (fragments & Hrun & Hl & Hcat & Hall).
  exists fragments. split; [exact Hrun|]. split; [exact Hl|].
  intros k f Hk. destruct (Hall k f Hk) as (Hi & Ht & _ & _ & Hd).
  split; [exact Hi|]. split; [exact Ht|].
  assert (HN : 0 <= N) by (unfold N, len; lia).
  fold N S in Hd |- *.
  pose proof (Z.div_mod N S ltac:(lia)) as Hdm.
  pose proof (Z.mod_pos_bound N S HS) as Hm.
  pose proof (Z.div_pos N S HN HS) as Hq.
  rewrite Hd, window_length by lia. fold N.
  unfold ceil_div. destruct (N mod S =? 0) eqn:E; split; intros Hlt; nia.
Qed.

(** ** Sorting by index *)

Lemma less_index_strict_weak : strict_weak less_index.
Proof. unfold strict_weak, less_index. repeat split; intros; lia. Qed.


#[local] Instance index_le_trans : Transitive index_le.
Proof. unfold index_le. intros a b c. lia. Qed.

Lemma sort_by_index_sorted `{SliceSort} (l : list Fragment) :
  StronglySorted index_le (sort_Slice Fragment less_index l).
Proof.
  apply Sorted_StronglySorted; [apply _|].
  pose proof (sort_Slice_sorted Fragment less_index l less_index_strict_weak)
    as Hs.
  induction Hs as [|a r Hs IH Hhd]; constructor; [exact IH|].
  destruct Hhd as [|b r Hab]; constructor.
  unfold index_le, less_index in *. lia.
Qed.


Lemma indexed_from_sorted l base :
  indexed_from base l -> StronglySorted index_le l.
Proof.
  revert base. induction l as [|a l IH]; intros base Hix; constructor.
  - apply (IH (base + 1)). intros k f Hk.
    rewrite (Hix (S k) f Hk). lia.
  - apply Forall_forall. intros y Hy.
    apply list_elem_of_lookup in Hy as [k Hk].
    unfold index_le. rewrite (Hix 0%nat a eq_refl), (Hix (S k) y Hk). lia.
Qed.

Lemma indexed_from_inj l base x y :
  indexed_from base l -> x ∈ l -> y ∈ l -> Index x = Index y -> x = y.
Proof.
  intros Hix Hx Hy Heq.
  apply list_elem_of_lookup in Hx as [i Hi].
  apply list_elem_of_lookup in Hy as [j Hj].
  rewrite (Hix i x Hi), (Hix j y Hj) in Heq.
  assert (i = j) by lia. subst j. congruence.
Qed.

(** Sorting leaves a slice alone when its indices already count up. *)
Lemma sort_indexed_id `{SliceSort} l base :
  indexed_from base l -> sort_Slice Fragment less_index l = l.
Proof.
  intros Hix. symmetry.
  apply (StronglySorted_unique_strong index_le).
  - intros x y Hx Hy Hxy Hyx.
    apply (indexed_from_inj l base); [exact Hix|exact Hx| |].
    + now rewrite (sort_Slice_perm Fragment less_index l).
    + unfold index_le in *. lia.
  - now apply (indexed_from_sorted l base).
  - apply sort_by_index_sorted.
  - apply sort_Slice_perm.
Qed.

(** ** Creating and writing the output file *)

(** A create that goes through leaves an empty regular file at the path,
    every other entry as it was, and no less room on the device. *)
Lemma os_Create_inv fs path fs1 :
  os_Create fs path = Some fs1 ->
  entries fs1 = <[path := RegularFile []]> (entries fs) /\
  (free_bytes fs <= free_bytes fs1)%nat.
Proof.
  unfold os_Create. destruct (creatable fs path); [|discriminate].
  destruct (entries fs !! path) as [[old|]|]; intros Hc;
    try discriminate; injection Hc as <-; simpl; split; (reflexivity || lia).
Qed.

Lemma write_fragments_ok path fragments :
  forall fs old,
    entries fs !! path = Some (RegularFile old) ->
    (length (concat (map Data fragments)) <= free_bytes fs)%nat ->
    exists fs',
      write_fragments fs path fragments = (fs', Ok tt) /\
      entries fs' !! path
        = Some (RegularFile (old ++ concat (map Data fragments))) /\
      forall other, other <> path -> entries fs' !! other = entries fs !! other.
Proof.
  induction fragments as [|f rest IH]; intros fs old Hold Hroom; simpl in *.
  - exists fs. rewrite app_nil_r. auto.
  - rewrite length_app in Hroom.
    unfold file_Write. rewrite Hold.
    replace (length (Data f) <=? free_bytes fs)%nat with true
      by (symmetry; apply Nat.leb_le; lia).
    rewrite Nat.min_l by lia. rewrite firstn_all.
    destruct (IH (MkFS (<[path := RegularFile (old ++ Data f)]> (entries fs))
                       (free_bytes fs - length (Data f))%nat (creatable fs))
                 (old ++ Data f)) as (fs' & Hw & Hc & Hother).
    + simpl. apply lookup_insert_eq.
    + simpl. lia.
    + exists fs'. split; [exact Hw|]. split.
      * rewrite Hc. now rewrite <- app_assoc.
      * intros other Hne. rewrite (Hother other Hne). simpl.
        now apply lookup_insert_ne.
Qed.

(** ** [AssembleFile] on a complete, index-ordered slice *)

Lemma AssembleFile_complete `{SliceSort} fm fragments outputPath fs first rest :
  fragments = first :: rest ->
  indexed_from 0 fragments ->
  TotalFragments first = len fragments ->
  os_Create fs outputPath <> None ->
  (length (concat (map Data fragments)) <= free_bytes fs)%nat ->
  exists fs',
    AssembleFile fm fragments outputPath fs
      = MkAssembleResult fragments fs' (Ok tt) /\
    file_content fs' outputPath = Some (concat (map Data fragments)).
Proof.
  intros Hcons Hix Htotal Hout Hroom.
  destruct (os_Create fs outputPath) as [fs1|] eqn:Hcreate; [|congruence].
  destruct (os_Create_inv _ _ _ Hcreate) as [Hent Hfree].
  destruct (write_fragments_ok outputPath fragments fs1 [])
    as (fs' & Hw & Hc & _).
  { rewrite Hent. apply lookup_insert_eq. }
  { lia. }
  exists fs'. split; [|unfold file_content; now rewrite Hc].
  unfold AssembleFile.
  replace (len fragments =? 0) with false
    by (subst fragments; unfold len; simpl; lia).
  rewrite (sort_indexed_id fragments 0 Hix).
  destruct fragments as [|f0 r0]; [discriminate|].
  injection Hcons as -> ->.
  rewrite Htotal, Z.eqb_refl. cbn [negb].
  now rewrite Hcreate, Hw.
Qed.

(** C1 (as amended): for every non-empty file and every fragment size
    [S > 0] for which [len(data) + S - 1] fits an [int], fragmenting the
    file and assembling the fragments into a path at which [os.Create]
    goes through, on a device with room for the file, writes exactly the
    bytes of the file. *)
Theorem C1_roundtrip_nonempty `{SliceSort} fm filepath outputPath fs data :
  entries fs !! filepath = Some (RegularFile data) ->
  data <> [] ->
  0 < FragmentSize fm ->
  len data + FragmentSize fm - 1 <= GoInt.max_int ->
  os_Create fs outputPath <> None ->
  (length data <= free_bytes fs)%nat ->
  roundtrip fm filepath outputPath fs data.
Proof.
  intros Hfile Hne HS Hmax Hout Hroom.
  assert (Hlen : 0 < len data)
    by (destruct data; [congruence|unfold len; simpl; lia]).
  pose proof (ceil_div_bounds (len data) (FragmentSize fm) ltac:(lia) HS)
    as (Hc0 & Hc1 & Hc2).
  destruct (FragmentFile_spec fm filepath fs data Hfile HS Hmax)
    as (fragments & Hrun & Hinv).
  pose proof (loop_inv_concat _ _ _ _ _ HS Hc1 Hinv) as Hcat.
  destruct Hinv as (Hl & _ & Hall).
  destruct fragments as [|first rest] eqn:Hfr.
  { change (0 = ceil_div (len data) (FragmentSize fm)) in Hl. nia. }
  rewrite <- Hfr in *.
  destruct (AssembleFile_complete fm fragments outputPath fs first rest)
    as (fs' & Hasm & Hcontent).
  - exact Hfr.
  - intros k f Hk. destruct (Hall k f Hk) as (Hi & _). lia.
  - destruct (Hall 0%nat first) as (_ & Ht & _); [now rewrite Hfr|].
    now rewrite Ht, Hl.
  - exact Hout.
  - now rewrite Hcat.
  - exists fragments. rewrite Hasm. simpl.
    split; [exact Hrun|]. split; [reflexivity|]. now rewrite Hcontent, Hcat.
Qed.

(** A 10-byte file cut into windows of 4 bytes. *)
Lemma C1_roundtrip_nonempty_witness :
  roundtrip (NewFragmentManager 4) "in" "out"
    (fs_with "in" (bytes_of_string "abcdefghij") 64)
    (bytes_of_string "abcdefghij").
Proof.
  apply C1_roundtrip_nonempty.
  - reflexivity.
  - discriminate.
  - reflexivity.
  - vm_compute. discriminate.
  - vm_compute. discriminate.
  - vm_compute. lia.
Defined.

(** C1 as stated fails on the zero-byte file: fragmenting yields no
    fragment and [AssembleFile] rejects the empty slice, so nothing is
    written. *)
Lemma C1_roundtrip_fails_on_empty_file :
  ~ roundtrip (NewFragmentManager 4) "in" "out" (fs_with "in" [] 64) [].
Proof.
  intros (fragments & Hrun & Hret & _).
  vm_compute in Hrun. injection Hrun as <-.
  vm_compute in Hret. discriminate.
Qed.

(** ** Hashes of the emitted fragments *)

Lemma encode_length bs :
  String.length (Hex.encode bs) = (2 * length bs)%nat.
Proof. induction bs as [|b bs IH]; simpl; [reflexivity|]. rewrite IH. lia. Qed.

Lemma encode_byte_lower (b : Byte.byte) :
  Hex.is_lower_hex_char (Hex.digit (Sha256.byte_Z b / 16))
  && Hex.is_lower_hex_char (Hex.digit (Sha256.byte_Z b mod 16)) = true.
Proof. destruct b; vm_compute; reflexivity. Qed.

Lemma encode_lower bs : Hex.is_lower_hex (Hex.encode bs) = true.
Proof.
  induction bs as [|b bs IH]; [reflexivity|].
  cbn [Hex.encode Hex.is_lower_hex]. rewrite IH, andb_true_r.
  apply encode_byte_lower.
Qed.


Lemma fragment_loop_hashes size total data filename :
  forall (n : nat) (i : Z) (acc res : list Fragment),
    fragment_loop n i size total data filename acc = Ok res ->
    Forall hash_matches acc -> Forall hash_matches res.
Proof.
  induction n as [|n IH]; intros i acc res Hrun Hacc; cbn [fragment_loop] in Hrun.
  - now injection Hrun as <-.
  - destruct (slice data _ _) as [fragmentData|]; [|discriminate].
    apply IH in Hrun; [exact Hrun|].
    apply Forall_app. split; [exact Hacc|].
    constructor; [|constructor].
    unfold hash_matches. cbn [Hash Data].
    split; [reflexivity|]. split; [apply encode_lower|].
    now rewrite encode_length, Sum256_length.
Qed.

(** C2: every fragment that [FragmentFile] returns has, as hash field, the
    lowercase hexadecimal encoding of the SHA-256 digest of its data
    field, whatever the fragment size. *)
Theorem C2_fragment_hash_is_sha256 fm filepath fs fragments :
  FragmentFile fm filepath fs = Ok fragments ->
  forall f, In f fragments -> hash_matches f.
Proof.
  intros Hrun.
  assert (Hall : Forall hash_matches fragments).
  { unfold FragmentFile in Hrun.
    destruct (os_Open fs filepath) as [file|]; [|discriminate].
    destruct (io_ReadAll file) as [data|]; [|discriminate].
    destruct (GoInt.div _ _) as [total|]; [|discriminate].
    destruct (total <? 0); [discriminate|].
    eapply fragment_loop_hashes; [exact Hrun|constructor]. }
  intros f Hf. rewrite Forall_forall in Hall. apply Hall.
  now apply list_elem_of_In.
Qed.

(** The three fragments of a 10-byte file cut into windows of 4 bytes. *)
Lemma C2_fragment_hash_is_sha256_witness :
  exists fragments,
    FragmentFile (NewFragmentManager 4) "in"
      (fs_with "in" (bytes_of_string "abcdefghij") 64) = Ok fragments /\
    length fragments = 3%nat /\
    forall f, In f fragments -> hash_matches f.
Proof.
  eexists. split; [vm_compute; reflexivity|]. split; [reflexivity|].
  apply (C2_fragment_hash_is_sha256 (NewFragmentManager 4) "in"
           (fs_with "in" (bytes_of_string "abcdefghij") 64)).
  vm_compute. reflexivity.
Defined.

(** ** The zero-byte file *)

Lemma FragmentFile_empty fm filepath fs :
  entries fs !! filepath = Some (RegularFile []) ->
  0 < FragmentSize fm <= GoInt.max_int ->
  FragmentFile fm filepath fs = Ok [].
Proof.
  intros Hfile [HS Hmax].
  assert (Hmi : GoInt.max_int = 9223372036854775807) by reflexivity.
  assert (Hmn : GoInt.min_int = -9223372036854775808) by reflexivity.
  unfold FragmentFile, os_Open. rewrite Hfile. cbn [io_ReadAll].
  change (len (@nil byte)) with 0.
  unfold GoInt.div, GoInt.sub, GoInt.add.
  destruct (FragmentSize fm =? 0) eqn:E; [lia|].
  rewrite wrap_wrap_sub.
  rewrite (wrap_small (0 + FragmentSize fm - 1))
    by (unfold GoInt.in_range; lia).
  rewrite Z.quot_small by lia.
  reflexivity.
Qed.

(** C9: for every fragment size [S > 0], fragmenting a zero-byte file
    succeeds and returns the empty slice of fragments, not an error. *)
Theorem C9_empty_file_yields_no_fragment fm filepath fs :
  entries fs !! filepath = Some (RegularFile []) ->
  0 < FragmentSize fm <= GoInt.max_int ->
  FragmentFile fm filepath fs = Ok [].
Proof. apply FragmentFile_empty. Qed.

Lemma C9_empty_file_yields_no_fragment_witness :
  FragmentFile (NewFragmentManager (256 * 1024)) "empty"
    (fs_with "empty" [] 0) = Ok [].
Proof.
  apply C9_empty_file_yields_no_fragment.
  - reflexivity.
  - vm_compute. split; [reflexivity|discriminate].
Defined.

(** A size that is not positive never yields a fragment. *)
Lemma FragmentFile_nonpositive fm filepath fs fragments :
  GoInt.in_range (FragmentSize fm) ->
  FragmentSize fm <= 0 ->
  FragmentFile fm filepath fs = Ok fragments -> fragments = [].
Proof.
  intros Hrange Hle Hrun. unfold FragmentFile in Hrun.
  destruct (os_Open fs filepath) as [file|]; [|discriminate].
  destruct (io_ReadAll file) as [data|]; [|discriminate].
  unfold GoInt.div in Hrun.
  destruct (FragmentSize fm =? 0) eqn:Hz; [discriminate|].
  apply Z.eqb_neq in Hz.
  destruct (_ <? 0); [discriminate|].
  destruct (Z.to_nat _) as [|n]; cbn [fragment_loop] in Hrun.
  - now injection Hrun as <-.
  - exfalso. unfold GoInt.mul, GoInt.add in Hrun.
    change (GoInt.wrap (0 * FragmentSize fm)) with 0 in Hrun.
    rewrite Z.add_0_l, (wrap_small _ Hrange) in Hrun.
    assert (Hlen : 0 <= len data) by (unfold len; lia).
    replace (FragmentSize fm >? len data) with false in Hrun
      by (symmetry; lia).
    unfold slice in Hrun.
    replace (0 <=? FragmentSize fm) with false in Hrun by (symmetry; lia).
    cbn [andb] in Hrun. discriminate.
Qed.

(** C10: [AssembleFile] on an empty slice always returns an error and
    leaves the file system as it was, whatever the manager, the output
    path and the file system; hence, for a zero-byte file and any fragment
    size an [int] can hold, fragmenting followed by assembling never
    completes the round trip. *)
Theorem C10_assemble_rejects_empty_slice `{SliceSort} fm outputPath fs :
  AssembleFile fm [] outputPath fs
    = MkAssembleResult [] fs (Err ErrNoHayFragmentos) /\
  (forall fm' filepath,
     GoInt.in_range (FragmentSize fm') ->
     entries fs !! filepath = Some (RegularFile []) ->
     ~ roundtrip fm' filepath outputPath fs []).
Proof.
  split; [reflexivity|].
  intros fm' filepath Hrange Hfile (fragments & Hrun & Hret & _).
  assert (Hnil : fragments = []).
  { destruct (Z_lt_le_dec 0 (FragmentSize fm')) as [Hpos|Hle].
    - rewrite (FragmentFile_empty fm' filepath fs Hfile) in Hrun.
      + now injection Hrun as <-.
      + split; [exact Hpos|apply Hrange].
    - exact (FragmentFile_nonpositive fm' filepath fs fragments Hrange Hle Hrun). }
  subst fragments. discriminate Hret.
Qed.

Lemma C10_assemble_rejects_empty_slice_witness :
  AssembleFile (NewFragmentManager 4) [] "out" (fs_with "in" [] 64)
    = MkAssembleResult [] (fs_with "in" [] 64) (Err ErrNoHayFragmentos) /\
  ~ roundtrip (NewFragmentManager 4) "in" "out" (fs_with "in" [] 64) [].
Proof.
  destruct (C10_assemble_rejects_empty_slice (NewFragmentManager 4) "out"
              (fs_with "in" [] 64)) as [Hreject Hround].
  split; [exact Hreject|].
  apply Hround.
  - vm_compute. split; discriminate.
  - reflexivity.
Defined.

(** ** Where the rounding sum overflows *)

(** C3 (the code departs from it): with the largest fragment size an [int]
    can hold, [len(data) + FragmentSize - 1] wraps around to a negative
    number. A 2-byte file then makes [FragmentFile] panic on a negative
    slice capacity, and a 4-byte file gives zero fragments, where
    [ceil(N / S)] is 1 in both cases. *)
Theorem C3_fragment_count_overflow :
  ceil_div 2 GoInt.max_int = 1 /\
  FragmentFile (NewFragmentManager GoInt.max_int) "in"
    (fs_with "in" (bytes_of_string "ab") 64) = Panic PanicMakeSliceCap /\
  ceil_div 4 GoInt.max_int = 1 /\
  FragmentFile (NewFragmentManager GoInt.max_int) "in"
    (fs_with "in" (bytes_of_string "abcd") 64) = Ok [].
Proof. repeat split; vm_compute; reflexivity. Qed.

(** ** What [AssembleFile] checks, and what it leaves behind *)



Lemma concat_data_length_perm (l l' : list Fragment) :
  Permutation l l' ->
  length (concat (map Data l)) = length (concat (map Data l')).
Proof.
  induction 1; simpl; repeat rewrite length_app; lia.
Qed.

(** The slice the caller holds after the call. *)
Lemma AssembleFile_caller_slice `{SliceSort} fm fragments outputPath fs :
  caller_slice (AssembleFile fm fragments outputPath fs)
  = match fragments with
    | [] => []
    | _ => sort_Slice Fragment less_index fragments
    end.
Proof.
  unfold AssembleFile. destruct fragments as [|f rest]; [reflexivity|].
  replace (len (f :: rest) =? 0) with false by (unfold len; simpl; lia).
  destruct (sort_Slice Fragment less_index (f :: rest)) as [|first sorted];
    [reflexivity|].
  destruct (negb _); [reflexivity|].
  destruct (os_Create fs outputPath) as [fs1|]; [|reflexivity].
  now destruct (write_fragments fs1 outputPath (first :: sorted)).
Qed.

(** The only test on a non-empty input is the count against the
    [TotalFragments] field of the fragment that sorts first. *)
Lemma AssembleFile_count_mismatch `{SliceSort} fm fragments outputPath fs total :
  (forall f, In f fragments -> TotalFragments f = total) ->
  len fragments <> total ->
  fs_after (AssembleFile fm fragments outputPath fs) = fs /\
  returned (AssembleFile fm fragments outputPath fs)
  = Err (if len fragments =? 0 then ErrNoHayFragmentos
         else ErrFragmentosIncompletos (len fragments) total).
Proof.
  intros Htotal Hne. unfold AssembleFile.
  destruct (len fragments =? 0) eqn:E; [split; reflexivity|].
  pose proof (sort_Slice_perm Fragment less_index fragments) as Hperm.
  destruct (sort_Slice Fragment less_index fragments) as [|first sorted] eqn:Hs.
  { apply Permutation_nil_r in Hperm. subst fragments. discriminate. }
  assert (Hfirst : TotalFragments first = total).
  { apply Htotal. apply (Permutation_in first (Permutation_sym Hperm)).
    now left. }
  assert (Hlen : len (first :: sorted) = len fragments).
  { unfold len. now rewrite (Permutation_length Hperm). }
  rewrite Hfirst, Hlen.
  replace (len fragments =? total) with false by (symmetry; lia).
  split; reflexivity.
Qed.

(** No test looks at the [Hash] or [Data] fields: a non-empty slice whose
    fragments all carry the slice's length as [TotalFragments] is written
    out in index order. *)
Lemma AssembleFile_accepts `{SliceSort} fm fragments outputPath fs :
  fragments <> [] ->
  (forall f, In f fragments -> TotalFragments f = len fragments) ->
  os_Create fs outputPath <> None ->
  (length (concat (map Data fragments)) <= free_bytes fs)%nat ->
  returned (AssembleFile fm fragments outputPath fs) = Ok tt /\
  file_content (fs_after (AssembleFile fm fragments outputPath fs)) outputPath
  = Some (concat (map Data (sort_Slice Fragment less_index fragments))).
Proof.
  intros Hne Htotal Hout Hroom.
  destruct (os_Create fs outputPath) as [fs1|] eqn:Hcreate; [|congruence].
  destruct (os_Create_inv _ _ _ Hcreate) as [Hent Hfree].
  unfold AssembleFile.
  replace (len fragments =? 0) with false
    by (destruct fragments; [congruence|unfold len; simpl; lia]).
  pose proof (sort_Slice_perm Fragment less_index fragments) as Hperm.
  destruct (sort_Slice Fragment less_index fragments) as [|first rest] eqn:Hs.
  { apply Permutation_nil_r in Hperm. congruence. }
  assert (Hfirst : TotalFragments first = len (first :: rest)).
  { rewrite (Htotal first).
    - unfold len. now rewrite (Permutation_length Hperm).
    - apply (Permutation_in first (Permutation_sym Hperm)). now left. }
  rewrite Hfirst, Z.eqb_refl. cbn [negb].
  destruct (write_fragments_ok outputPath (first :: rest) fs1 [])
    as (fs' & Hw & Hc & _).
  { rewrite Hent. apply lookup_insert_eq. }
  { rewrite <- (concat_data_length_perm _ _ Hperm). lia. }
  rewrite Hcreate, Hw. cbn [returned fs_after].
  split; [reflexivity|]. unfold file_content. now rewrite Hc.
Qed.

(** ** Strict subsets, duplicates and stale hashes *)

Lemma demo_fragments :
  FragmentFile (NewFragmentManager 4) "in" demo_fs = Ok [demo_f0; demo_f1].
Proof. vm_compute. reflexivity. Qed.

(** Every fragment of a successful run records the number of fragments
    returned, whatever the fragment size. *)
Lemma fragment_loop_totals size total data filename :
  forall (n : nat) (i : Z) (acc res : list Fragment),
    fragment_loop n i size total data filename acc = Ok res ->
    Forall (fun f => TotalFragments f = total) acc ->
    length res = (length acc + n)%nat /\
    Forall (fun f => TotalFragments f = total) res.
Proof.
  induction n as [|n IH]; intros i acc res Hrun Hacc;
    cbn [fragment_loop] in Hrun.
  - injection Hrun as <-. split; [lia|exact Hacc].
  - destruct (slice data _ _) as [fragmentData|]; [|discriminate].
    apply IH in Hrun.
    + destruct Hrun as [Hlen Hall]. split; [|exact Hall].
      rewrite Hlen, length_app. simpl. lia.
    + apply Forall_app. split; [exact Hacc|]. now repeat constructor.
Qed.

Lemma FragmentFile_totals fm filepath fs fragments :
  FragmentFile fm filepath fs = Ok fragments ->
  forall f, In f fragments -> TotalFragments f = len fragments.
Proof.
  intros Hrun. unfold FragmentFile in Hrun.
  destruct (os_Open fs filepath) as [file|]; [|discriminate].
  destruct (io_ReadAll file) as [data|]; [|discriminate].
  destruct (GoInt.div _ _) as [total|]; [|discriminate].
  destruct (total <? 0) eqn:Hneg; [discriminate|].
  apply fragment_loop_totals in Hrun; [|constructor].
  destruct Hrun as [Hlen Hall].
  intros f Hf. rewrite Forall_forall in Hall.
  rewrite (Hall f) by now apply list_elem_of_In.
  unfold len. rewrite Hlen. simpl. lia.
Qed.

(** A strict subset of the fragments of a file (no fragment twice, at
    least one missing) has too few elements for the count test: the call
    fails and writes nothing. *)
Lemma AssembleFile_strict_subset_fails `{SliceSort}
    fm filepath fs fragments sub outputPath fs' :
  FragmentFile fm filepath fs = Ok fragments ->
  NoDup sub ->
  (forall f, In f sub -> In f fragments) ->
  (exists f, In f fragments /\ ~ In f sub) ->
  fs_after (AssembleFile fm sub outputPath fs') = fs' /\
  returned (AssembleFile fm sub outputPath fs')
  = Err (if len sub =? 0 then ErrNoHayFragmentos
         else ErrFragmentosIncompletos (len sub) (len fragments)).
Proof.
  intros Hrun Hnodup Hsub (missing & Hin & Hout).
  assert (Hlt : (length sub < length fragments)%nat).
  { destruct (le_lt_dec (length fragments) (length sub)) as [Hle|Hlt];
      [|exact Hlt].
    exfalso. apply Hout.
    apply (proj1 (NoDup_ListNoDup sub)) in Hnodup.
    exact (List.NoDup_length_incl Hnodup Hle Hsub missing Hin). }
  apply AssembleFile_count_mismatch.
  - intros f Hf. apply (FragmentFile_totals fm filepath fs fragments Hrun).
    now apply Hsub.
  - unfold len. lia.
Qed.

(** C4 (the code departs from it): the index values are never compared
    with 0..N-1. Two copies of fragment 0 of a two-fragment file pass the
    count test, although index 1 is missing and index 0 is duplicated:
    the call returns [nil] and writes the first window twice. *)
Theorem C4_duplicate_index_accepted :
  FragmentFile (NewFragmentManager 4) "in" demo_fs = Ok [demo_f0; demo_f1] /\
  map Index [demo_f0; demo_f0] = [0; 0] /\
  returned (AssembleFile (NewFragmentManager 4) [demo_f0; demo_f0] "out" demo_fs)
    = Ok tt /\
  file_content
    (fs_after (AssembleFile (NewFragmentManager 4) [demo_f0; demo_f0] "out" demo_fs))
    "out" = Some (bytes_of_string "abcdabcd").
Proof. repeat split; vm_compute; reflexivity. Qed.

(** C5 (as amended): [AssembleFile] does not recompute or compare any
    hash. Every non-empty slice whose fragments all carry the slice's
    length as [TotalFragments] is accepted, whatever its [Hash] and [Data]
    fields hold (given an output path at which [os.Create] goes through
    and room on the device): the call returns [nil] and writes the data fields in
    index order. In particular a fragment whose data was changed after
    hashing does not make it fail. *)
Theorem C5_assemble_ignores_hashes `{SliceSort} fm fragments outputPath fs :
  fragments <> [] ->
  (forall f, In f fragments -> TotalFragments f = len fragments) ->
  os_Create fs outputPath <> None ->
  (length (concat (map Data fragments)) <= free_bytes fs)%nat ->
  returned (AssembleFile fm fragments outputPath fs) = Ok tt /\
  file_content (fs_after (AssembleFile fm fragments outputPath fs)) outputPath
  = Some (concat (map Data (sort_Slice Fragment less_index fragments))).
Proof. apply AssembleFile_accepts. Qed.

Lemma C5_assemble_ignores_hashes_witness :
  returned (AssembleFile (NewFragmentManager 4) [demo_f1; demo_tampered]
              "out" demo_fs) = Ok tt /\
  file_content
    (fs_after (AssembleFile (NewFragmentManager 4) [demo_f1; demo_tampered]
                 "out" demo_fs)) "out"
  = Some (concat (map Data
            (sort_Slice Fragment less_index [demo_f1; demo_tampered]))).
Proof.
  apply C5_assemble_ignores_hashes.
  - discriminate.
  - intros f [<-|[<-|[]]]; reflexivity.
  - vm_compute. discriminate.
  - vm_compute. lia.
Defined.

(** C5 as stated fails: the data of fragment 0 is overwritten after
    fragmentation, so its declared hash no longer matches, and the call
    still returns [nil] and writes the overwritten bytes. *)
Lemma C5_mutated_data_accepted :
  Hash demo_tampered <> Hex.encode (Sha256.Sum256 (Data demo_tampered)) /\
  returned (AssembleFile (NewFragmentManager 4) [demo_tampered; demo_f1]
              "out" demo_fs) = Ok tt /\
  file_content
    (fs_after (AssembleFile (NewFragmentManager 4) [demo_tampered; demo_f1]
                 "out" demo_fs)) "out"
  = Some (bytes_of_string "XXXXefgh").
Proof.
  split; [vm_compute; discriminate|].
  split; vm_compute; reflexivity.
Qed.




(** ** The fragment-request handler *)

(** C7: for every request the handler decodes, the response it encodes
    echoes the requested hash; when the hash is a key of the local
    fragment store the response has [Found] set and carries the stored
    fragment's bytes, and otherwise [Found] is false and the data is
    empty. The handler then closes the stream. *)
Theorem C7_handler_response `{Services} (n : P2PNode) (s : Stream)
    (req : FragmentRequest) :
  incoming s = Some req ->
  exists response,
    handleFragmentRequest n s
      = [if writable s then Encode response else LogEncodeError response;
         Close] /\
    resp_Hash response = req_Hash req /\
    match StoredFragments n !! req_Hash req with
    | Some fragment =>
        resp_Found response = true /\ resp_Data response = Data fragment
    | None =>
        resp_Found response = false /\ resp_Data response = []
    end.
Proof.
  intros Hreq. exists (build_response n req).
  unfold handleFragmentRequest. rewrite Hreq.
  split; [now destruct (writable s)|].
  unfold build_response.
  destruct (StoredFragments n !! req_Hash req) as [fragment|];
    repeat split; reflexivity.
Qed.


Lemma C7_handler_response_witness :
  (exists response,
     handleFragmentRequest demo_node
       (MkStream (Some (MkFragmentRequest (Hash demo_f0))) true)
       = [Encode response; Close] /\
     resp_Hash response = Hash demo_f0 /\
     resp_Found response = true /\
     resp_Data response = bytes_of_string "abcd") /\
  (exists response,
     handleFragmentRequest demo_node
       (MkStream (Some (MkFragmentRequest (Hash demo_f1))) true)
       = [Encode response; Close] /\
     resp_Hash response = Hash demo_f1 /\
     resp_Found response = false /\
     resp_Data response = []).
Proof.
  split.
  - destruct (C7_handler_response demo_node
                (MkStream (Some (MkFragmentRequest (Hash demo_f0))) true)
                (MkFragmentRequest (Hash demo_f0)) eq_refl)
      as (response & Hrun & Hhash & Hfound).
    exists response. split; [exact Hrun|]. split; [exact Hhash|].
    vm_compute in Hfound. exact Hfound.
  - destruct (C7_handler_response demo_node
                (MkStream (Some (MkFragmentRequest (Hash demo_f1))) true)
                (MkFragmentRequest (Hash demo_f1)) eq_refl)
      as (response & Hrun & Hhash & Hfound).
    exists response. split; [exact Hrun|]. split; [exact Hhash|].
    vm_compute in Hfound. exact Hfound.
Defined.

(** ** Upload *)

Lemma store_fragments_snoc fragments f stored :
  store_fragments (fragments ++ [f]) stored
  = <[Hash f := f]> (store_fragments fragments stored).
Proof. unfold store_fragments. now rewrite fold_left_app. Qed.


Lemma store_fragments_holds fragments stored :
  holds_file (store_fragments fragments stored) fragments.
Proof.
  induction fragments as [|x l IH] using rev_ind; intros f Hf; [destruct Hf|].
  rewrite store_fragments_snoc.
  destruct (decide (Hash x = Hash f)) as [Heq|Hne].
  - exists x. rewrite <- Heq, lookup_insert_eq.
    split; [reflexivity|]. split; [|reflexivity].
    apply in_or_app. right. now left.
  - apply in_app_or in Hf as [Hf|[->|[]]]; [|congruence].
    destruct (IH f Hf) as (g & Hg & Hin & Hh).
    exists g. rewrite lookup_insert_ne by exact Hne.
    split; [exact Hg|]. split; [|exact Hh].
    apply in_or_app. now left.
Qed.



(** C8: [UploadFile] returns [nil] only when fragmenting succeeded, the
    fragments are in the local store, the catalog has the file's entry and
    the DHT accepted the record; and when the DHT rejects the record after
    fragmentation, [UploadFile] returns an error while the store still
    holds every fragment of the file and the catalog still has its entry. *)
Theorem C8_upload_outcomes `{Services} (n : P2PNode) (filepath : string)
    (fs : FS) :
  (forall n',
     UploadFile n filepath fs = (n', Ok tt) ->
     exists fragments fileInfoBytes hash,
       FragmentFile (FragmentMgr n) filepath fs = Ok fragments /\
       stored_locally n' filepath fragments /\
       json_Marshal (file_info_of filepath fragments) = Some fileInfoBytes /\
       mh_Sum (bytes_of_string filepath) = Some hash /\
       dht_PutValue (DHT n) (cid_String hash) fileInfoBytes = (DHT n', None)) /\
  (forall fragments fileInfoBytes hash dht' cause,
     FragmentFile (FragmentMgr n) filepath fs = Ok fragments ->
     json_Marshal (file_info_of filepath fragments) = Some fileInfoBytes ->
     mh_Sum (bytes_of_string filepath) = Some hash ->
     dht_PutValue (DHT n) (cid_String hash) fileInfoBytes = (dht', Some cause) ->
     exists n',
       UploadFile n filepath fs = (n', Err (ErrAlmacenandoMetadatos cause)) /\
       stored_locally n' filepath fragments).
Proof.
  split.
  - intros n' Hup. unfold UploadFile in Hup.
    destruct (FragmentFile (FragmentMgr n) filepath fs) as [fragments|e|p];
      [|discriminate..].
    destruct (json_Marshal (file_info_of filepath fragments))
      as [fileInfoBytes|] eqn:Hjson; [|discriminate].
    destruct (mh_Sum (bytes_of_string filepath)) as [hash|] eqn:Hsum;
      [|discriminate].
    destruct (dht_PutValue (DHT n) (cid_String hash) fileInfoBytes)
      as [dht' [cause|]] eqn:Hput; [discriminate|].
    injection Hup as <-.
    exists fragments, fileInfoBytes, hash.
    split; [reflexivity|]. split; [|auto].
    split; [apply store_fragments_holds|apply lookup_insert_eq].
  - intros fragments fileInfoBytes hash dht' cause Hrun Hjson Hsum Hput.
    unfold UploadFile. rewrite Hrun.
    rewrite Hjson, Hsum, Hput.
    eexists. split; [reflexivity|].
    split; [apply store_fragments_holds|apply lookup_insert_eq].
Qed.

(** A node whose index service is unreachable uploads the demo file. *)
Lemma C8_upload_outcomes_witness :
  exists n',
    UploadFile demo_node "in" demo_fs
      = (n', Err (ErrAlmacenandoMetadatos "unreachable")) /\
    stored_locally n' "in" [demo_f0; demo_f1].
Proof.
  destruct (C8_upload_outcomes demo_node "in" demo_fs) as [_ Hfail].
  apply (Hfail [demo_f0; demo_f1]
           (bytes_of_string "in"
            ++ flat_map bytes_of_string (map Hash [demo_f0; demo_f1]))
           (Sha256.Sum256 (bytes_of_string "in"))
           (MkToyDHT false ∅) "unreachable"%string).
  - vm_compute. reflexivity.
  - reflexivity.
  - reflexivity.
  - reflexivity.
Defined.

(* ===================================================================== *)
(** * Further properties of the code *)
(* ===================================================================== *)

(** ** [FragmentFile]: errors, degenerate sizes, fields, windows *)

Lemma fragment_loop_not_err size total data filename :
  forall (n : nat) (i : Z) (acc : list Fragment) (e : error),
    fragment_loop n i size total data filename acc <> Err e.
Proof.
  induction n as [|n IH]; intros i acc e; cbn [fragment_loop];
    [discriminate|].
  destruct (slice data _ _); [apply IH|discriminate].
Qed.

(** X1: the only errors [FragmentFile] returns are those of its two
    reads. It returns an error exactly when [os.Open] fails (the error of
    the open, wrapped) or [io.ReadAll] fails on the opened file (the error
    of the read, wrapped); once the bytes are read, fragmenting itself
    never returns an error: it returns fragments or panics. *)
Theorem X1_FragmentFile_error_iff fm filepath fs e :
  FragmentFile fm filepath fs = Err e <->
  (os_Open fs filepath = None /\ e = ErrLeyendoArchivo) \/
  (exists file, os_Open fs filepath = Some file /\
                io_ReadAll file = None /\ e = ErrLeyendoDatos).
Proof.
  unfold FragmentFile.
  destruct (os_Open fs filepath) as [file|].
  - destruct (io_ReadAll file) as [data|] eqn:Hread.
    + split.
      * destruct (GoInt.div _ _) as [total|]; [|discriminate].
        destruct (total <? 0); [discriminate|].
        intros Hrun. now apply fragment_loop_not_err in Hrun.
      * intros [[Hopen _]|(file' & Hopen & Hnone & _)]; [discriminate|].
        injection Hopen as <-. congruence.
    + split.
      * intros Hrun. injection Hrun as <-. right. now exists file.
      * intros [[Hopen _]|(_ & _ & _ & ->)]; [discriminate|reflexivity].
  - split.
    + intros Hrun. injection Hrun as <-. now left.
    + intros [[_ ->]|(file & Hopen & _)]; [reflexivity|discriminate].
Qed.

Lemma X1_FragmentFile_error_iff_witness :
  FragmentFile (NewFragmentManager 4) "missing" demo_fs = Err ErrLeyendoArchivo /\
  FragmentFile (NewFragmentManager 4) "dir"
    (MkFS {[ "dir"%string := Directory ]} 0 plain_name) = Err ErrLeyendoDatos.
Proof.
  split.
  - apply X1_FragmentFile_error_iff. left. split; reflexivity.
  - apply X1_FragmentFile_error_iff. right. exists Directory.
    repeat split; reflexivity.
Defined.

(** X2: [NewFragmentManager] accepts any size, and a size that is not
    positive never yields a fragment: a returned slice is empty whatever
    the file holds, and the size 0 panics on every readable file, the
    empty one included. *)
Theorem X2_nonpositive_size_no_fragment fm filepath fs :
  GoInt.in_range (FragmentSize fm) ->
  FragmentSize fm <= 0 ->
  (forall fragments,
     FragmentFile fm filepath fs = Ok fragments -> fragments = []) /\
  (FragmentSize fm = 0 ->
   forall data, entries fs !! filepath = Some (RegularFile data) ->
     FragmentFile fm filepath fs = Panic PanicDivideByZero).
Proof.
  intros Hrange Hle. split.
  - intros fragments Hrun. unfold FragmentFile in Hrun.
    destruct (os_Open fs filepath) as [file|]; [|discriminate].
    destruct (io_ReadAll file) as [data|]; [|discriminate].
    unfold GoInt.div in Hrun.
    destruct (FragmentSize fm =? 0) eqn:Hz; [discriminate|].
    apply Z.eqb_neq in Hz.
    destruct (_ <? 0); [discriminate|].
    destruct (Z.to_nat _) as [|n]; cbn [fragment_loop] in Hrun.
    + now injection Hrun as <-.
    + exfalso. unfold GoInt.mul, GoInt.add in Hrun.
      change (GoInt.wrap (0 * FragmentSize fm)) with 0 in Hrun.
      rewrite Z.add_0_l, (wrap_small _ Hrange) in Hrun.
      assert (Hlen : 0 <= len data) by (unfold len; lia).
      replace (FragmentSize fm >? len data) with false in Hrun
        by (symmetry; lia).
      unfold slice in Hrun.
      replace (0 <=? FragmentSize fm) with false in Hrun by (symmetry; lia).
      cbn [andb] in Hrun. discriminate.
  - intros Hzero data Hfile. unfold FragmentFile, os_Open.
    rewrite Hfile. cbn [io_ReadAll]. unfold GoInt.div. now rewrite Hzero.
Qed.

(** A negative size silently drops an 8-byte file; the size 0 panics. *)
Lemma X2_nonpositive_size_no_fragment_witness :
  FragmentFile (NewFragmentManager (-4)) "in" demo_fs = Ok [] /\
  FragmentFile (NewFragmentManager 0) "in" demo_fs = Panic PanicDivideByZero.
Proof.
  destruct (X2_nonpositive_size_no_fragment (NewFragmentManager 0) "in" demo_fs)
    as [_ Hzero]; [vm_compute; split; discriminate|vm_compute; discriminate|].
  split; [vm_compute; reflexivity|].
  apply (Hzero eq_refl (bytes_of_string "abcdefgh")). reflexivity.
Defined.

Lemma fragment_loop_fields size total data filename :
  forall (n : nat) (i : Z) (acc res : list Fragment),
    0 <= i -> i + Z.of_nat n <= GoInt.max_int ->
    len acc = i ->
    (forall (k : nat) f, acc !! k = Some f ->
       Index f = Z.of_nat k /\ Filename f = filename) ->
    fragment_loop n i size total data filename acc = Ok res ->
    forall (k : nat) f, res !! k = Some f ->
      Index f = Z.of_nat k /\ Filename f = filename.
Proof.
  induction n as [|n IH]; intros i acc res Hi Hmax Hlen Hacc Hrun;
    cbn [fragment_loop] in Hrun.
  - now injection Hrun as <-.
  - destruct (slice data _ _) as [fragmentData|]; [|discriminate].
    assert (Hmi : GoInt.max_int = 9223372036854775807) by reflexivity.
    assert (Hmn : GoInt.min_int = -9223372036854775808) by reflexivity.
    unfold GoInt.add at 1 in Hrun.
    rewrite (wrap_small (i + 1)) in Hrun by (unfold GoInt.in_range; lia).
    refine (IH (i + 1) _ res _ _ _ _ Hrun); [lia|lia| |].
    + unfold len in *. rewrite length_app. simpl. lia.
    + intros k f Hk.
      destruct (decide (k < length acc)%nat) as [Hin|Hout].
      * rewrite lookup_app_l in Hk by exact Hin. now apply Hacc.
      * rewrite lookup_app_r in Hk by lia.
        destruct (k - length acc)%nat as [|m] eqn:Hm;
          [|destruct m; discriminate].
        injection Hk as <-. cbn [Index Filename].
        unfold len in Hlen. split; [lia|reflexivity].
Qed.

(** X3: whatever the fragment size, the fragments of a successful run are
    numbered by their position, carry the path as file name, and all
    record the number of fragments returned. *)
Theorem X3_fragment_fields fm filepath fs fragments :
  FragmentFile fm filepath fs = Ok fragments ->
  forall (k : nat) f, fragments !! k = Some f ->
    Index f = Z.of_nat k /\
    Filename f = filepath /\
    TotalFragments f = len fragments.
Proof.
  intros Hrun k f Hk.
  assert (Htotal : TotalFragments f = len fragments).
  { apply (FragmentFile_totals fm filepath fs fragments Hrun).
    apply list_elem_of_In, list_elem_of_lookup. now exists k. }
  unfold FragmentFile in Hrun.
  destruct (os_Open fs filepath) as [file|]; [|discriminate].
  destruct (io_ReadAll file) as [data|]; [|discriminate].
  destruct (GoInt.div _ _) as [total|] eqn:Hdiv; [|discriminate].
  destruct (total <? 0) eqn:Hneg; [discriminate|].
  assert (Hrange : GoInt.in_range total).
  { unfold GoInt.div in Hdiv. destruct (_ =? 0); [discriminate|].
    injection Hdiv as <-. apply wrap_in_range. }
  assert (Hbound : 0 + Z.of_nat (Z.to_nat total) <= GoInt.max_int).
  { destruct Hrange as [_ Hmax]. lia. }
  destruct (fragment_loop_fields _ _ _ _ _ 0 [] fragments
              ltac:(lia) Hbound eq_refl
              ltac:(intros ? ? Hnil; discriminate Hnil) Hrun k f Hk)
    as [Hindex Hname].
  auto.
Qed.

Lemma X3_fragment_fields_witness :
  Index demo_f1 = 1 /\ Filename demo_f1 = "in"%string /\
  TotalFragments demo_f1 = len [demo_f0; demo_f1].
Proof.
  apply (X3_fragment_fields (NewFragmentManager 4) "in" demo_fs
           [demo_f0; demo_f1] demo_fragments 1%nat demo_f1).
  reflexivity.
Defined.

(** X4: when the rounding sum does not overflow, the fragments are the
    consecutive windows of the file: fragment [k] holds the bytes from
    offset [k * S] on, at least one byte and at most [S], and the data
    fields concatenated in order are the file. *)
Theorem X4_fragments_cover_file fm filepath fs data :
  entries fs !! filepath = Some (RegularFile data) ->
  0 < FragmentSize fm ->
  len data + FragmentSize fm - 1 <= GoInt.max_int ->
  exists fragments,
    FragmentFile fm filepath fs = Ok fragments /\
    concat (map Data fragments) = data /\
    forall (k : nat) f, fragments !! k = Some f ->
      Data f = window (FragmentSize fm) data (Z.of_nat k) /\
      1 <= len (Data f) <= FragmentSize fm.
Proof.
  intros Hfile HS Hmax.
  assert (Hlen : 0 <= len data) by (unfold len; lia).
  pose proof (ceil_div_bounds (len data) (FragmentSize fm) Hlen HS)
    as (Hc0 & Hc1 & Hc2).
  destruct (FragmentFile_spec fm filepath fs data Hfile HS Hmax)
    as (fragments & Hrun & Hinv).
  exists fragments. split; [exact Hrun|].
  split; [exact (loop_inv_concat _ _ _ _ _ HS Hc1 Hinv)|].
  destruct Hinv as (Hl & _ & Hall).
  intros k f Hk. destruct (Hall k f Hk) as (_ & _ & _ & _ & Hd).
  split; [exact Hd|].
  apply lookup_lt_Some in Hk.
  assert (Hkl : Z.of_nat k < ceil_div (len data) (FragmentSize fm))
    by (rewrite <- Hl; unfold len; lia).
  rewrite Hd, window_length by lia. nia.
Qed.

Lemma X4_fragments_cover_file_witness :
  exists fragments,
    FragmentFile (NewFragmentManager 4) "in"
      (fs_with "in" (bytes_of_string "abcdefghij") 0) = Ok fragments /\
    concat (map Data fragments) = bytes_of_string "abcdefghij" /\
    forall (k : nat) f, fragments !! k = Some f ->
      Data f = window 4 (bytes_of_string "abcdefghij") (Z.of_nat k) /\
      1 <= len (Data f) <= 4.
Proof.
  apply (X4_fragments_cover_file (NewFragmentManager 4) "in"
           (fs_with "in" (bytes_of_string "abcdefghij") 0)).
  - reflexivity.
  - reflexivity.
  - vm_compute. discriminate.
Defined.

(** ** [AssembleFile]: when it succeeds, and what a failure leaves *)

Lemma write_fragments_result path fragments :
  forall fs fs' r,
    write_fragments fs path fragments = (fs', r) ->
    r = Ok tt \/ r = Err ErrEscribiendoFragmento.
Proof.
  induction fragments as [|f rest IH]; intros fs fs' r Hw;
    cbn [write_fragments] in Hw.
  - injection Hw as _ <-. now left.
  - destruct (file_Write fs path (Data f)) as [fs1 [|]].
    + exact (IH _ _ _ Hw).
    + injection Hw as _ <-. now right.
Qed.



(** X6: the order in which the fragments of a file arrive does not matter.
    For a non-empty file fragmented without overflow, assembling any
    rearrangement of its fragments, into a path at which [os.Create] goes
    through and on a device with room for the file, succeeds, leaves the
    caller's slice in the original order, and writes the file's bytes. *)
Theorem X6_assemble_any_order `{SliceSort}
    fm filepath outputPath fs data fragments arrived :
  entries fs !! filepath = Some (RegularFile data) ->
  data <> [] ->
  0 < FragmentSize fm ->
  len data + FragmentSize fm - 1 <= GoInt.max_int ->
  FragmentFile fm filepath fs = Ok fragments ->
  Permutation fragments arrived ->
  os_Create fs outputPath <> None ->
  (length data <= free_bytes fs)%nat ->
  returned (AssembleFile fm arrived outputPath fs) = Ok tt /\
  caller_slice (AssembleFile fm arrived outputPath fs) = fragments /\
  file_content (fs_after (AssembleFile fm arrived outputPath fs)) outputPath
  = Some data.
Proof.
  intros Hfile Hne HS Hmax Hrun Hperm Hdir Hroom.
  assert (Hlen : 0 <= len data) by (unfold len; lia).
  pose proof (ceil_div_bounds (len data) (FragmentSize fm) Hlen HS)
    as (Hc0 & Hc1 & Hc2).
  destruct (FragmentFile_spec fm filepath fs data Hfile HS Hmax)
    as (fragments' & Hrun' & Hinv).
  rewrite Hrun in Hrun'. injection Hrun' as <-.
  pose proof (loop_inv_concat _ _ _ _ _ HS Hc1 Hinv) as Hcat.
  destruct Hinv as (Hl & _ & Hall).
  assert (Hix : indexed_from 0 fragments).
  { intros k f Hk. destruct (Hall k f Hk) as (Hi & _). lia. }
  assert (Hsorted : sort_Slice Fragment less_index arrived = fragments).
  { symmetry. apply (StronglySorted_unique_strong index_le).
    - intros x y Hx Hy Hxy Hyx.
      apply (indexed_from_inj fragments 0); [exact Hix|exact Hx| |].
      + rewrite Hperm. now rewrite (sort_Slice_perm Fragment less_index arrived).
      + unfold index_le in *. lia.
    - now apply (indexed_from_sorted fragments 0).
    - apply sort_by_index_sorted.
    - rewrite Hperm. apply sort_Slice_perm. }
  assert (Harr : arrived <> []).
  { intros ->. apply Permutation_nil_r in Hperm. subst fragments.
    simpl in Hcat. congruence. }
  destruct (AssembleFile_accepts fm arrived outputPath fs) as [Hret Hcontent].
  - exact Harr.
  - intros f Hf. unfold len. rewrite <- (Permutation_length Hperm).
    apply (FragmentFile_totals fm filepath fs fragments Hrun).
    now apply (Permutation_in f (Permutation_sym Hperm)).
  - exact Hdir.
  - rewrite <- (concat_data_length_perm _ _ Hperm), Hcat. exact Hroom.
  - split; [exact Hret|]. split.
    + rewrite AssembleFile_caller_slice.
      destruct arrived; [congruence|exact Hsorted].
    + now rewrite Hcontent, Hsorted, Hcat.
Qed.

Lemma X6_assemble_any_order_witness :
  returned (AssembleFile (NewFragmentManager 4) [demo_f1; demo_f0] "out"
              demo_fs) = Ok tt /\
  caller_slice (AssembleFile (NewFragmentManager 4) [demo_f1; demo_f0] "out"
                  demo_fs) = [demo_f0; demo_f1] /\
  file_content (fs_after (AssembleFile (NewFragmentManager 4)
                            [demo_f1; demo_f0] "out" demo_fs)) "out"
  = Some (bytes_of_string "abcdefgh").
Proof.
  apply (X6_assemble_any_order (NewFragmentManager 4) "in" "out" demo_fs
           (bytes_of_string "abcdefgh") [demo_f0; demo_f1] [demo_f1; demo_f0]).
  - reflexivity.
  - discriminate.
  - reflexivity.
  - vm_compute. discriminate.
  - vm_compute. reflexivity.
  - apply perm_swap.
  - vm_compute. discriminate.
  - vm_compute. lia.
Defined.

(** X7: [AssembleFile] never panics, and every check comes before the
    output file is touched: when it returns an error other than a write
    error (no fragments, wrong count, output not creatable), the file
    system is exactly as before, an existing output file included. *)
Theorem X7_assemble_failure_leaves_fs `{SliceSort} fm fragments outputPath fs :
  (forall p, returned (AssembleFile fm fragments outputPath fs) <> Panic p) /\
  (forall e,
     returned (AssembleFile fm fragments outputPath fs) = Err e ->
     e <> ErrEscribiendoFragmento ->
     fs_after (AssembleFile fm fragments outputPath fs) = fs).
Proof.
  pose proof (sort_Slice_perm Fragment less_index fragments) as Hperm.
  unfold AssembleFile.
  destruct (len fragments =? 0) eqn:Hempty;
    [split; [discriminate|reflexivity]|].
  destruct (sort_Slice Fragment less_index fragments) as [|first rest].
  { apply Permutation_nil_r in Hperm. subst fragments. discriminate. }
  destruct (negb _); [split; [discriminate|reflexivity]|].
  destruct (os_Create fs outputPath) as [fs1|];
    [|split; [discriminate|reflexivity]].
  destruct (write_fragments fs1 outputPath (first :: rest)) as [fs2 r] eqn:Hw.
  cbn [returned fs_after].
  destruct (write_fragments_result _ _ _ _ _ Hw) as [->| ->].
  - split; discriminate.
  - split; [discriminate|]. intros e He Hne. congruence.
Qed.

(** One fragment of two, and an output file that exists already. *)
Lemma X7_assemble_failure_leaves_fs_witness :
  fs_after (AssembleFile (NewFragmentManager 4) [demo_f1] "in" demo_fs)
  = demo_fs.
Proof.
  destruct (X7_assemble_failure_leaves_fs (NewFragmentManager 4) [demo_f1]
              "in" demo_fs) as [_ Hfs].
  apply (Hfs (ErrFragmentosIncompletos 1 2)).
  - vm_compute. reflexivity.
  - discriminate.
Defined.

Lemma write_fragments_partial path fragments :
  forall fs fs' old e,
    entries fs !! path = Some (RegularFile old) ->
    write_fragments fs path fragments = (fs', Err e) ->
    exists written rest,
      entries fs' !! path = Some (RegularFile (old ++ written)) /\
      written ++ rest = concat (map Data fragments) /\
      rest <> [].
Proof.
  induction fragments as [|f more IH]; intros fs fs' old e Hold Hw;
    cbn [write_fragments] in Hw; [discriminate|].
  unfold file_Write in Hw. rewrite Hold in Hw.
  destruct (length (Data f) <=? free_bytes fs)%nat eqn:Hfit.
  - apply Nat.leb_le in Hfit.
    rewrite Nat.min_l, firstn_all in Hw by lia.
    apply (IH _ _ (old ++ Data f)) in Hw; [|simpl; apply lookup_insert_eq].
    destruct Hw as (written & rest & Hc & Hsplit & Hrest).
    exists (Data f ++ written), rest. split; [|split; [|exact Hrest]].
    + rewrite Hc. now rewrite <- app_assoc.
    + simpl. now rewrite <- app_assoc, Hsplit.
  - apply Nat.leb_gt in Hfit. rewrite Nat.min_r in Hw by lia.
    injection Hw as <- _.
    exists (firstn (free_bytes fs) (Data f)),
           (skipn (free_bytes fs) (Data f) ++ concat (map Data more)).
    split; [simpl; apply lookup_insert_eq|]. split.
    + simpl. now rewrite app_assoc, firstn_skipn.
    + intros Hnil. apply (f_equal (@length byte)) in Hnil.
      rewrite length_app, length_skipn in Hnil. simpl in Hnil. lia.
Qed.

(** X8: a write error leaves a truncated output file behind. When
    [AssembleFile] returns the write error, whatever the output path held
    before is gone and the file there holds a proper prefix of the data
    that was to be written; nothing removes it. *)
Theorem X8_assemble_write_error_partial `{SliceSort}
    fm fragments outputPath fs :
  returned (AssembleFile fm fragments outputPath fs)
    = Err ErrEscribiendoFragmento ->
  exists written rest,
    file_content (fs_after (AssembleFile fm fragments outputPath fs)) outputPath
      = Some written /\
    written ++ rest
      = concat (map Data (caller_slice (AssembleFile fm fragments outputPath fs))) /\
    rest <> [].
Proof.
  unfold AssembleFile.
  destruct (len fragments =? 0); [discriminate|].
  destruct (sort_Slice Fragment less_index fragments) as [|first sorted];
    [discriminate|].
  destruct (negb _); [discriminate|].
  destruct (os_Create fs outputPath) as [fs1|] eqn:Hcreate; [|discriminate].
  destruct (write_fragments fs1 outputPath (first :: sorted)) as [fs2 r] eqn:Hw.
  cbn [returned fs_after caller_slice]. intros ->.
  destruct (os_Create_inv _ _ _ Hcreate) as [Hent _].
  apply (write_fragments_partial _ _ _ _ []) in Hw;
    [|rewrite Hent; apply lookup_insert_eq].
  destruct Hw as (written & rest & Hc & Hsplit & Hrest).
  exists written, rest. unfold file_content. rewrite Hc. auto.
Qed.

(** An output file of 3 bytes on a device with 2 bytes left: truncating
    gives room for 5 of the 8 bytes, and the output file keeps those. *)
Lemma X8_assemble_write_error_partial_witness :
  exists written rest,
    file_content
      (fs_after (AssembleFile (NewFragmentManager 4) [demo_f0; demo_f1] "out"
                   (fs_with "out" (bytes_of_string "old") 2))) "out"
      = Some written /\
    written ++ rest
      = concat (map Data (caller_slice
          (AssembleFile (NewFragmentManager 4) [demo_f0; demo_f1] "out"
             (fs_with "out" (bytes_of_string "old") 2)))) /\
    rest <> [].
Proof.
  apply X8_assemble_write_error_partial. vm_compute. reflexivity.
Defined.

(** ** [UploadFile] and the handler: the local state and what is served *)

Lemma store_fragments_lookup fragments stored h :
  store_fragments fragments stored !! h
  = match last_with_hash h fragments with
    | Some f => Some f
    | None => stored !! h
    end.
Proof.
  induction fragments as [|x l IH] using rev_ind; [reflexivity|].
  rewrite store_fragments_snoc. unfold last_with_hash.
  rewrite rev_app_distr. cbn [rev app List.find].
  destruct (String.eqb_spec (Hash x) h) as [Heq|Hne].
  - subst h. apply lookup_insert_eq.
  - rewrite lookup_insert_ne by exact Hne. exact IH.
Qed.

Lemma last_with_hash_Some h fragments f :
  last_with_hash h fragments = Some f -> In f fragments /\ Hash f = h.
Proof.
  unfold last_with_hash. intros Hfind.
  apply List.find_some in Hfind as [Hin Heq].
  split; [now apply in_rev|now apply String.eqb_eq].
Qed.

Lemma last_with_hash_In h fragments f :
  In f fragments -> Hash f = h -> is_Some (last_with_hash h fragments).
Proof.
  intros Hin Heq. unfold last_with_hash.
  destruct (List.find _ _) as [g|] eqn:Hfind; [now exists g|].
  exfalso.
  pose proof (List.find_none _ _ Hfind f (proj1 (in_rev _ _) Hin)) as Hno.
  cbv beta in Hno. rewrite Heq, String.eqb_refl in Hno. discriminate.
Qed.

(** The local part of the node after [UploadFile], in every outcome that
    got past fragmentation. *)
Lemma UploadFile_local `{Services} (n : P2PNode) filepath fs fragments :
  FragmentFile (FragmentMgr n) filepath fs = Ok fragments ->
  StoredFragments (UploadFile n filepath fs).1
    = store_fragments fragments (StoredFragments n) /\
  FileMetadata (UploadFile n filepath fs).1
    = <[filepath := file_info_of filepath fragments]> (FileMetadata n) /\
  FragmentMgr (UploadFile n filepath fs).1 = FragmentMgr n.
Proof.
  intros Hrun. unfold UploadFile. rewrite Hrun.
  destruct (json_Marshal _) as [fileInfoBytes|]; [|repeat split].
  destruct (mh_Sum _) as [hash|]; [|repeat split].
  destruct (dht_PutValue _ _ _) as [dht' [cause|]]; repeat split.
Qed.

Lemma UploadFile_unread `{Services} (n : P2PNode) filepath fs :
  (forall fragments, FragmentFile (FragmentMgr n) filepath fs <> Ok fragments) ->
  (UploadFile n filepath fs).1 = n.
Proof.
  intros Hno. unfold UploadFile.
  destruct (FragmentFile (FragmentMgr n) filepath fs) as [fragments|e|p];
    [now destruct (Hno fragments)|reflexivity..].
Qed.

(** X9: the local state after an upload that got past fragmentation,
    whether or not publishing went through. A hash of the file is bound
    to the last fragment of the file with that hash (identical windows
    share one entry); every other key keeps its entry; the catalog gains
    or replaces the entry of this file name and keeps all others. *)
Theorem X9_upload_local_state `{Services} (n : P2PNode) filepath fs fragments :
  FragmentFile (FragmentMgr n) filepath fs = Ok fragments ->
  (forall h,
     StoredFragments (UploadFile n filepath fs).1 !! h
     = match last_with_hash h fragments with
       | Some f => Some f
       | None => StoredFragments n !! h
       end) /\
  FileMetadata (UploadFile n filepath fs).1 !! filepath
    = Some (file_info_of filepath fragments) /\
  (forall other, other <> filepath ->
     FileMetadata (UploadFile n filepath fs).1 !! other
     = FileMetadata n !! other).
Proof.
  intros Hrun.
  destruct (UploadFile_local n filepath fs fragments Hrun) as (Hs & Hm & _).
  rewrite Hs, Hm. split; [|split].
  - intros h. apply store_fragments_lookup.
  - apply lookup_insert_eq.
  - intros other Hne. now apply lookup_insert_ne.
Qed.

(** Two identical windows: one store entry, bound to the later fragment. *)
Lemma X9_upload_local_state_witness :
  exists f,
    StoredFragments
      (UploadFile demo_node "twice"
         (fs_with "twice" (bytes_of_string "abcdabcd") 0)).1
      !! Hash demo_f0 = Some f /\
    Index f = 1 /\ Data f = bytes_of_string "abcd".
Proof.
  destruct (X9_upload_local_state demo_node "twice"
              (fs_with "twice" (bytes_of_string "abcdabcd") 0)
              [fragment_of (bytes_of_string "abcd") 0 2 "twice";
               fragment_of (bytes_of_string "abcd") 1 2 "twice"])
    as (Hstore & _); [vm_compute; reflexivity|].
  exists (fragment_of (bytes_of_string "abcd") 1 2 "twice").
  split; [|split; reflexivity].
  rewrite Hstore. vm_compute. reflexivity.
Defined.

Lemma FragmentFile_hashes fm filepath fs fragments :
  FragmentFile fm filepath fs = Ok fragments ->
  forall f, In f fragments -> hash_matches f.
Proof.
  intros Hrun. unfold FragmentFile in Hrun.
  destruct (os_Open fs filepath) as [file|]; [|discriminate].
  destruct (io_ReadAll file) as [data|]; [|discriminate].
  destruct (GoInt.div _ _) as [total|]; [|discriminate].
  destruct (total <? 0); [discriminate|].
  apply fragment_loop_hashes in Hrun; [|constructor].
  intros f Hf. rewrite Forall_forall in Hrun. apply Hrun.
  now apply list_elem_of_In.
Qed.

(** X10: the store is content-addressed, and stays so. The store of a
    fresh node is, and [UploadFile] keeps it so in every outcome: each key
    is the hash field of the fragment bound to it and the hexadecimal
    SHA-256 digest of that fragment's data. *)
Theorem X10_store_content_addressed `{Services} :
  (forall d, content_addressed (StoredFragments (initial_node d))) /\
  (forall (n : P2PNode) filepath fs,
     content_addressed (StoredFragments n) ->
     content_addressed (StoredFragments (UploadFile n filepath fs).1)).
Proof.
  split.
  - intros d h f Hlook. cbn [initial_node StoredFragments] in Hlook.
    rewrite lookup_empty in Hlook. discriminate.
  - intros n filepath fs Hinv.
    destruct (FragmentFile (FragmentMgr n) filepath fs) as [fragments|e|p]
      eqn:Hrun.
    + destruct (UploadFile_local n filepath fs fragments Hrun) as (Hs & _).
      rewrite Hs. intros h f Hlook.
      rewrite store_fragments_lookup in Hlook.
      destruct (last_with_hash h fragments) as [g|] eqn:Hlast;
        [|now apply Hinv].
      injection Hlook as <-.
      apply last_with_hash_Some in Hlast as [Hin Hh].
      destruct (FragmentFile_hashes _ _ _ _ Hrun g Hin) as (Hhash & _).
      split; [exact Hh|]. now rewrite <- Hhash.
    + rewrite UploadFile_unread; [exact Hinv|]. intros ?. now rewrite Hrun.
    + rewrite UploadFile_unread; [exact Hinv|]. intros ?. now rewrite Hrun.
Qed.

Lemma X10_store_content_addressed_witness :
  content_addressed
    (StoredFragments
       (UploadFile (initial_node (MkToyDHT false ∅)) "in" demo_fs).1).
Proof.
  destruct X10_store_content_addressed as [Hinit Hkeep].
  apply Hkeep, Hinit.
Defined.

(** X11: from a content-addressed store the handler serves only bytes
    that match the request: whenever the encoded response has [Found]
    set, the SHA-256 digest of its data, in hexadecimal, is the requested
    hash. *)
Theorem X11_served_data_matches_hash `{Services} (n : P2PNode) (s : Stream)
    req response :
  content_addressed (StoredFragments n) ->
  incoming s = Some req ->
  handleFragmentRequest n s = [Encode response; Close] ->
  resp_Found response = true ->
  resp_Hash response = req_Hash req /\
  Hex.encode (Sha256.Sum256 (resp_Data response)) = req_Hash req.
Proof.
  intros Hinv Hreq Hrun Hfound.
  unfold handleFragmentRequest in Hrun. rewrite Hreq in Hrun.
  destruct (writable s); [|discriminate].
  injection Hrun as <-. unfold build_response in *.
  destruct (StoredFragments n !! req_Hash req) as [fragment|] eqn:Hlook;
    [|discriminate].
  split; [reflexivity|]. exact (proj2 (Hinv _ _ Hlook)).
Qed.

Lemma X11_served_data_matches_hash_witness :
  Hex.encode (Sha256.Sum256 (bytes_of_string "abcd")) = Hash demo_f0.
Proof.
  refine (proj2 (X11_served_data_matches_hash demo_node
           (MkStream (Some (MkFragmentRequest (Hash demo_f0))) true)
           (MkFragmentRequest (Hash demo_f0))
           (MkFragmentResponse (Hash demo_f0) (bytes_of_string "abcd") true)
           _ eq_refl _ eq_refl)).
  - intros h f Hlook. cbn [demo_node StoredFragments] in Hlook.
    apply lookup_singleton_Some in Hlook as [<- <-]. split; reflexivity.
  - vm_compute. reflexivity.
Defined.

(** X12: what was uploaded is served. After an upload that got past
    fragmentation (published or not), a request for any hash listed in the
    file's catalog entry is answered with [Found] set and with data whose
    SHA-256 digest, in hexadecimal, is that hash. *)
Theorem X12_upload_then_serve `{Services} (n : P2PNode) filepath fs
    fragments info h (s : Stream) :
  FragmentFile (FragmentMgr n) filepath fs = Ok fragments ->
  FileMetadata (UploadFile n filepath fs).1 !! filepath = Some info ->
  In h (fi_FragmentHashes info) ->
  incoming s = Some (MkFragmentRequest h) ->
  writable s = true ->
  exists response,
    handleFragmentRequest (UploadFile n filepath fs).1 s
      = [Encode response; Close] /\
    resp_Hash response = h /\
    resp_Found response = true /\
    Hex.encode (Sha256.Sum256 (resp_Data response)) = h.
Proof.
  intros Hrun Hinfo Hh Hreq Hw.
  destruct (UploadFile_local n filepath fs fragments Hrun) as (Hs & Hm & _).
  rewrite Hm, lookup_insert_eq in Hinfo. injection Hinfo as <-.
  cbn [file_info_of fi_FragmentHashes] in Hh.
  apply in_map_iff in Hh as (f & Hfh & Hf).
  destruct (last_with_hash_In h fragments f Hf Hfh) as [g Hlast].
  pose proof (last_with_hash_Some _ _ _ Hlast) as [Hg Hgh].
  destruct (FragmentFile_hashes _ _ _ _ Hrun g Hg) as (Hhash & _).
  exists (build_response (UploadFile n filepath fs).1 (MkFragmentRequest h)).
  unfold handleFragmentRequest. rewrite Hreq, Hw.
  split; [reflexivity|].
  unfold build_response. cbn [req_Hash].
  rewrite Hs, store_fragments_lookup, Hlast.
  cbn [resp_Hash resp_Found resp_Data].
  split; [reflexivity|]. split; [reflexivity|]. now rewrite <- Hhash.
Qed.

(** The index service is unreachable, and the fragments are served all
    the same. *)
Lemma X12_upload_then_serve_witness :
  exists response,
    handleFragmentRequest (UploadFile demo_node "in" demo_fs).1
      (MkStream (Some (MkFragmentRequest (Hash demo_f1))) true)
      = [Encode response; Close] /\
    resp_Hash response = Hash demo_f1 /\
    resp_Found response = true /\
    Hex.encode (Sha256.Sum256 (resp_Data response)) = Hash demo_f1.
Proof.
  apply (X12_upload_then_serve demo_node "in" demo_fs [demo_f0; demo_f1]
           (file_info_of "in" [demo_f0; demo_f1])).
  - vm_compute. reflexivity.
  - vm_compute. reflexivity.
  - right. left. reflexivity.
  - reflexivity.
  - reflexivity.
Defined.

(** X13: for a readable file [UploadFile] always gets as far as the DHT,
    and that one call decides its result. For a regular file, a positive
    fragment size without overflow of the rounding sum and encoders that
    accept the entry, the catalog entry lists [ceil(N / S)] hashes with
    that number as [TotalFragments]; [PutValue] is handed the encoded
    entry under the CID of the file name; and [UploadFile] returns [nil]
    when [PutValue] does and the wrapped error of [PutValue] otherwise. *)
Theorem X13_upload_reaches_dht `{Services} (n : P2PNode) filepath fs data :
  entries fs !! filepath = Some (RegularFile data) ->
  0 < FragmentSize (FragmentMgr n) ->
  len data + FragmentSize (FragmentMgr n) - 1 <= GoInt.max_int ->
  (forall info, json_Marshal info <> None) ->
  mh_Sum (bytes_of_string filepath) <> None ->
  exists info fileInfoBytes hash,
    FileMetadata (UploadFile n filepath fs).1 !! filepath = Some info /\
    fi_TotalFragments info = ceil_div (len data) (FragmentSize (FragmentMgr n)) /\
    len (fi_FragmentHashes info) = fi_TotalFragments info /\
    json_Marshal info = Some fileInfoBytes /\
    mh_Sum (bytes_of_string filepath) = Some hash /\
    DHT (UploadFile n filepath fs).1
      = (dht_PutValue (DHT n) (cid_String hash) fileInfoBytes).1 /\
    (UploadFile n filepath fs).2
      = match (dht_PutValue (DHT n) (cid_String hash) fileInfoBytes).2 with
        | Some cause => Err (ErrAlmacenandoMetadatos cause)
        | None => Ok tt
        end.
Proof.
  intros Hfile HS Hmax Hjson Hsum.
  destruct (FragmentFile_spec _ filepath fs data Hfile HS Hmax)
    as (fragments & Hrun & Hl & _).
  unfold UploadFile. rewrite Hrun.
  destruct (json_Marshal (file_info_of filepath fragments))
    as [fileInfoBytes|] eqn:Hj; [|now apply Hjson in Hj].
  destruct (mh_Sum (bytes_of_string filepath)) as [hash|]; [|congruence].
  exists (file_info_of filepath fragments), fileInfoBytes, hash.
  assert (Hentry :
    fi_TotalFragments (file_info_of filepath fragments)
      = ceil_div (len data) (FragmentSize (FragmentMgr n)) /\
    len (fi_FragmentHashes (file_info_of filepath fragments))
      = fi_TotalFragments (file_info_of filepath fragments)).
  { cbn [file_info_of fi_TotalFragments fi_FragmentHashes].
    split; [exact Hl|]. unfold len. now rewrite length_map. }
  destruct Hentry as [Htotal Hcount].
  destruct (dht_PutValue (DHT n) (cid_String hash) fileInfoBytes)
    as [dht' [cause|]]; cbn [fst snd FileMetadata DHT];
    (split; [apply lookup_insert_eq|]); auto 10.
Qed.

(** A node whose index service is reachable uploads a 10-byte file in
    fragments of 4 bytes: the entry lists 3 hashes, and the validator of
    the DHT refuses the key, a bare CID outside its name spaces. *)
Lemma X13_upload_reaches_dht_witness :
  (UploadFile (MkP2PNode toy_services (MkToyDHT true ∅)
                 (NewFragmentManager 4) ∅ ∅) "in"
     (fs_with "in" (bytes_of_string "abcdefghij") 0)).2
    = Err (ErrAlmacenandoMetadatos "invalid record keytype") /\
  exists info,
    FileMetadata
      (UploadFile (MkP2PNode toy_services (MkToyDHT true ∅)
                     (NewFragmentManager 4) ∅ ∅) "in"
         (fs_with "in" (bytes_of_string "abcdefghij") 0)).1 !! "in"%string
      = Some info /\
    fi_TotalFragments info = 3.
Proof.
  destruct (X13_upload_reaches_dht
              (MkP2PNode toy_services (MkToyDHT true ∅)
                 (NewFragmentManager 4) ∅ ∅)
              "in" (fs_with "in" (bytes_of_string "abcdefghij") 0)
              (bytes_of_string "abcdefghij"))
    as (info & fileInfoBytes & hash & Hentry & Htotal & _ & _ & Hsum & _ & Hret).
  - reflexivity.
  - reflexivity.
  - vm_compute. discriminate.
  - discriminate.
  - discriminate.
  - split.
    + rewrite Hret. injection Hsum as <-. vm_compute. reflexivity.
    + exists info. split; [exact Hentry|]. rewrite Htotal. reflexivity.
Defined.

(** X14: uploading the same file a second time changes nothing locally:
    the store and the catalog after the second call are those after the
    first, in every outcome. *)
Theorem X14_upload_twice `{Services} (n : P2PNode) filepath fs :
  StoredFragments (UploadFile (UploadFile n filepath fs).1 filepath fs).1
    = StoredFragments (UploadFile n filepath fs).1 /\
  FileMetadata (UploadFile (UploadFile n filepath fs).1 filepath fs).1
    = FileMetadata (UploadFile n filepath fs).1.
Proof.
  destruct (FragmentFile (FragmentMgr n) filepath fs) as [fragments|e|p]
    eqn:Hrun.
  - destruct (UploadFile_local n filepath fs fragments Hrun)
      as (Hs & Hm & Hfm).
    assert (Hrun2 : FragmentFile (FragmentMgr (UploadFile n filepath fs).1)
                      filepath fs = Ok fragments) by now rewrite Hfm.
    destruct (UploadFile_local _ filepath fs fragments Hrun2)
      as (Hs2 & Hm2 & _).
    rewrite Hs2, Hm2, Hs, Hm. split.
    + apply map_eq. intros h. rewrite !store_fragments_lookup.
      now destruct (last_with_hash h fragments).
    + apply insert_insert_eq.
  - assert (Hsame : (UploadFile n filepath fs).1 = n)
      by (apply UploadFile_unread; intros ?; now rewrite Hrun).
    rewrite Hsame, Hsame. split; reflexivity.
  - assert (Hsame : (UploadFile n filepath fs).1 = n)
      by (apply UploadFile_unread; intros ?; now rewrite Hrun).
    rewrite Hsame, Hsame. split; reflexivity.
Qed.

(** X15: an upload never removes anything. In every outcome all keys of
    the store are still bound, the catalog entries of other file names
    are untouched and the fragment manager is the same; and when the file
    cannot be fragmented (read error or panic) the node is left exactly
    as it was. *)
Theorem X15_upload_keeps `{Services} (n : P2PNode) filepath fs :
  (forall h, is_Some (StoredFragments n !! h) ->
             is_Some (StoredFragments (UploadFile n filepath fs).1 !! h)) /\
  (forall other, other <> filepath ->
     FileMetadata (UploadFile n filepath fs).1 !! other
     = FileMetadata n !! other) /\
  FragmentMgr (UploadFile n filepath fs).1 = FragmentMgr n /\
  ((forall fragments,
      FragmentFile (FragmentMgr n) filepath fs <> Ok fragments) ->
   (UploadFile n filepath fs).1 = n).
Proof.
  destruct (FragmentFile (FragmentMgr n) filepath fs) as [fragments|e|p]
    eqn:Hrun.
  - destruct (UploadFile_local n filepath fs fragments Hrun)
      as (Hs & Hm & Hfm).
    rewrite Hs, Hm. repeat split.
    + intros h Hsome. rewrite store_fragments_lookup.
      now destruct (last_with_hash h fragments).
    + intros other Hne. now apply lookup_insert_ne.
    + exact Hfm.
    + intros Hno. now destruct (Hno fragments).
  - assert (Hsame : (UploadFile n filepath fs).1 = n)
      by (apply UploadFile_unread; intros ?; now rewrite Hrun).
    rewrite Hsame. repeat split; auto.
  - assert (Hsame : (UploadFile n filepath fs).1 = n)
      by (apply UploadFile_unread; intros ?; now rewrite Hrun).
    rewrite Hsame. repeat split; auto.
Qed.

(** A missing file: the node, with the fragment it stores, is untouched. *)
Lemma X15_upload_keeps_witness :
  (UploadFile demo_node "missing" demo_fs).1 = demo_node /\
  is_Some (StoredFragments (UploadFile demo_node "in" demo_fs).1
             !! Hash demo_f0).
Proof.
  destruct (X15_upload_keeps demo_node "missing" demo_fs)
    as (_ & _ & _ & Hsame).
  destruct (X15_upload_keeps demo_node "in" demo_fs) as (Hkeep & _).
  split.
  - apply Hsame. intros fragments. vm_compute. discriminate.
  - apply Hkeep. eexists. vm_compute. reflexivity.
Defined.

(** X16: the DHT is contacted last. Unless [UploadFile] returns [nil] or
    the error of [PutValue], the state of the distributed index is the one
    the node started with: reading, fragmenting and both encodings come
    before the only call to the DHT. *)
Theorem X16_upload_dht_untouched `{Services} (n : P2PNode) filepath fs :
  (UploadFile n filepath fs).2 <> Ok tt ->
  (forall cause,
     (UploadFile n filepath fs).2 <> Err (ErrAlmacenandoMetadatos cause)) ->
  DHT (UploadFile n filepath fs).1 = DHT n.
Proof.
  unfold UploadFile.
  destruct (FragmentFile (FragmentMgr n) filepath fs) as [fragments|e|p];
    [|reflexivity..].
  destruct (json_Marshal _) as [fileInfoBytes|]; [|reflexivity].
  destruct (mh_Sum _) as [hash|]; [|reflexivity].
  destruct (dht_PutValue _ _ _) as [dht' [cause|]]; cbn [fst snd].
  - intros _ Hno. now destruct (Hno cause).
  - intros Hno _. now destruct Hno.
Qed.

Lemma X16_upload_dht_untouched_witness :
  DHT (UploadFile demo_node "missing" demo_fs).1 = DHT demo_node.
Proof.
  apply X16_upload_dht_untouched.
  - vm_compute. discriminate.
  - intros cause. vm_compute. discriminate.
Defined.

(** X17: with the fragment size that [NewP2PNode] configures (256 KiB)
    the rounding sum cannot overflow for any file of at most
    [MaxInt64 - 262143] bytes: on such a node every regular file is cut
    into [ceil(N / 262144)] fragments that concatenate to the file. *)
Theorem X17_default_size_fragments `{Services} (d : dht_state)
    filepath fs data :
  entries fs !! filepath = Some (RegularFile data) ->
  len data <= GoInt.max_int - 262143 ->
  exists fragments,
    FragmentFile (FragmentMgr (initial_node d)) filepath fs = Ok fragments /\
    len fragments = ceil_div (len data) 262144 /\
    concat (map Data fragments) = data.
Proof.
  intros Hfile Hsize.
  cbn [initial_node FragmentMgr].
  assert (HS : 0 < FragmentSize (NewFragmentManager (256 * 1024)))
    by reflexivity.
  assert (Hmax : len data + FragmentSize (NewFragmentManager (256 * 1024)) - 1
                 <= GoInt.max_int).
  { change (FragmentSize (NewFragmentManager (256 * 1024))) with 262144. lia. }
  destruct (FragmentFile_spec _ filepath fs data Hfile HS Hmax)
    as (fragments & Hrun & Hinv).
  exists fragments. split; [exact Hrun|].
  change (FragmentSize (NewFragmentManager (256 * 1024))) with 262144 in *.
  split; [exact (proj1 Hinv)|].
  apply (loop_inv_concat 262144 (ceil_div (len data) 262144) data filepath
           fragments); [lia| |exact Hinv].
  apply (ceil_div_bounds (len data) 262144); [unfold len|]; lia.
Qed.

Lemma X17_default_size_fragments_witness :
  exists fragments,
    FragmentFile (FragmentMgr (@initial_node toy_services (MkToyDHT true ∅)))
      "in" demo_fs = Ok fragments /\
    len fragments = ceil_div (len (bytes_of_string "abcdefgh")) 262144 /\
    concat (map Data fragments) = bytes_of_string "abcdefgh".
Proof.
  apply (@X17_default_size_fragments toy_services (MkToyDHT true ∅) "in"
           demo_fs).
  - reflexivity.
  - vm_compute. discriminate.
Defined.
